(** * opti-cmp-client: the preview-webhook workflow, embedded and verified

    The development follows the three classes of the library:
    - [CMPOAuthClient]    (client-credentials grant with a token cache),
    - [CMPClient]         (acknowledge / complete calls),
    - [CMPWebhookHandler] (parse, acknowledge, generate URLs, complete).

    JavaScript values that reach the code untyped (the webhook payload, a
    thrown exception) are modelled by [JSValue]; everything the source
    declares with a type keeps that type.  Promises are run to completion in
    sequence: an [await] is a monadic bind, a rejection is an exception. *)

From Stdlib Require Import ZArith Lia Ascii String.
From stdpp Require Import base option list strings pretty gmap fin_maps.

Local Open Scope string_scope.
Local Open Scope Z_scope.
Local Open Scope list_scope.
Local Set Warnings "-register-all".

(** ** JavaScript values *)

(** JSON-shaped values plus [undefined].  Numbers are the integer-valued
    ones (every number the workflow computes with is an integer: a status
    code, a lifetime in seconds, a time stamp in milliseconds).  An object
    is its list of own entries, first match wins on lookup. *)
Inductive JSValue : Type :=
| JUndefined
| JNull
| JBool (b : bool)
| JNum (z : Z)
| JStr (s : string)
| JArr (items : list JSValue)
| JObj (entries : list (string * JSValue)).

(** ToBoolean: the falsy values are [undefined], [null], [false], [0] and
    the empty string. *)
Definition truthy (v : JSValue) : bool :=
  match v with
  | JUndefined | JNull => false
  | JBool b => b
  | JNum z => negb (Z.eqb z 0)
  | JStr s => negb (String.eqb s "")
  | JArr _ | JObj _ => true
  end.

Definition falsy (v : JSValue) : bool := negb (truthy v).

(** [typeof v === 'string'] *)
Definition typeof_string (v : JSValue) : option string :=
  match v with JStr s => Some s | _ => None end.

Definition nullish (v : JSValue) : bool :=
  match v with JUndefined | JNull => true | _ => false end.

(** A safe integer: a double holds it, and every sum, difference or
    product of doubles whose exact value is one is computed exactly. *)
Definition safe_integer (z : Z) : bool := Z.abs z <=? 2 ^ 53.

(** The values that a template literal is sure to print, and prints as
    [to_string] below says: [undefined], [null], booleans, strings and safe
    integers.  (An object with an entry named [toString] makes the
    conversion throw a [TypeError], so an object or an array that contains
    one may; a number from 1e21 on prints in exponent form.) *)
Definition scalar (v : JSValue) : bool :=
  match v with
  | JUndefined | JNull | JBool _ | JStr _ => true
  | JNum z => safe_integer z
  | JArr _ | JObj _ => false
  end.

(** ToString as a template literal applies it, on the values it converts:
    it is JavaScript's conversion on every [scalar] value; beyond those, a
    plain object prints through [Object.prototype.toString] and an array
    joins its items with commas, [undefined] and [null] items printing as
    nothing.  Where the conversion would throw, the text given here is that
    of the object without the offending entry; the theorems that print a
    value of the payload ask for a [scalar]. *)
Fixpoint to_string (v : JSValue) : string :=
  match v with
  | JUndefined => "undefined"
  | JNull => "null"
  | JBool true => "true"
  | JBool false => "false"
  | JNum z => pretty z
  | JStr s => s
  | JArr items =>
      (fix join (l : list JSValue) : string :=
         match l with
         | [] => ""
         | [x] => if nullish x then "" else to_string x
         | x :: rest =>
             (if nullish x then "" else to_string x) +:+ "," +:+ join rest
         end) items
  | JObj _ => "[object Object]"
  end.

(** ** Exceptions *)

(** What a [catch] clause can receive: a [CMPError] (the library's own error
    class, with its optional status code and details), any other instance of
    [Error] (a [TypeError] of the runtime, the plain [Error] of a
    constructor, a transport failure), or a thrown value that is no [Error]
    at all. *)
Inductive Exn : Type :=
| CMPError (message : string) (statusCode : option Z) (details : option string)
| JSError (name : string) (message : string)
| Thrown (v : JSValue).

(** The error a constructor throws for a missing field: a plain [Error]
    naming the field.  It carries no status code. *)
Definition ConfigurationError (field : string) : Exn :=
  JSError "Error" (field +:+ " is required").

Abbreviation Result A := (Exn + A)%type.

(** ** Property access *)

Fixpoint assoc (k : string) (entries : list (string * JSValue)) : JSValue :=
  match entries with
  | [] => JUndefined
  | (k', v) :: rest => if String.eqb k k' then v else assoc k rest
  end.

(** [v.k] for a key [k] that no built-in prototype defines (all the keys the
    library reads are of that sort): reading a property of [undefined] or
    [null] throws a [TypeError], a primitive or an array has no such
    property, an object yields its entry or [undefined]. *)
Definition get (v : JSValue) (k : string) : Result JSValue :=
  match v with
  | JUndefined =>
      inl (JSError "TypeError"
             ("Cannot read properties of undefined (reading '" +:+ k +:+ "')"))
  | JNull =>
      inl (JSError "TypeError"
             ("Cannot read properties of null (reading '" +:+ k +:+ "')"))
  | JObj entries => inr (assoc k entries)
  | _ => inr JUndefined
  end.

(** [v?.k] *)
Definition get_opt (v : JSValue) (k : string) : JSValue :=
  match v with
  | JObj entries => assoc k entries
  | _ => JUndefined
  end.

(** [v?.[0]]: the first item of an array, the first character of a string,
    the entry named ["0"] of an object. *)
Definition get_opt_0 (v : JSValue) : JSValue :=
  match v with
  | JArr (x :: _) => x
  | JStr (String c _) => JStr (String c "")
  | JObj entries => assoc "0" entries
  | _ => JUndefined
  end.

(** ** Data model (src/types/index.ts) *)

(** [CMPClientConfig extends CMPOAuthConfig] and [CMPWebhookConfig extends
    CMPClientConfig]: the extension is the coercion to the parent record. *)
Record CMPOAuthConfig : Type := {
  clientId : string;
  clientSecret : string;
  authServerUrl : string
}.

Record CMPClientConfig : Type := {
  oauthConfig :> CMPOAuthConfig;
  apiBaseUrl : string
}.

Record CMPWebhookConfig : Type := {
  clientConfig :> CMPClientConfig;
  previewUrl : string;
  previewTypes : option (list string)
}.

Record TokenCache : Type := {
  accessToken : string;
  expiresAt : Z            (* milliseconds, as [Date.now()] *)
}.

(** The body of the token endpoint after [as TokenResponse]: the cast checks
    nothing, so a field may be missing; a field that is there has the type
    the interface declares for it. *)
Record TokenResponse : Type := {
  access_token : option string;
  expires_in : option Z;   (* seconds *)
  token_type : option string
}.

(** Declared as strings; at run time they are whatever truthy values the
    payload carried. *)
Record PreviewRequest : Type := {
  contentId : JSValue;
  versionId : JSValue;
  previewId : JSValue;
  updatedBy : JSValue;
  contentHash : JSValue
}.

(** The three ids go into the URL of each platform call through a template
    literal, which is built before anything else is done: they are
    [scalar] when that is sure to succeed, with the text [to_string]
    gives.  Ids that are strings, as declared, always are. *)
Definition printable_ids (request : PreviewRequest) : bool :=
  scalar (contentId request) && scalar (versionId request)
    && scalar (previewId request).

(** An object used as a dictionary from preview type to URL. *)
Abbreviation KeyedPreviews := (gmap string string).

Module Data.
Record t : Type := {
  contentId : JSValue;
  versionId : JSValue;
  previewId : JSValue;
  keyedPreviews : KeyedPreviews
}.
End Data.

Record WebhookHandlerResult : Type := {
  success : bool;
  data : option Data.t;
  error : option string;
  status : Z
}.

(** ** The outside world: network, clock, JSON parser *)

(** A request body before serialisation: [URLSearchParams(..).toString()] or
    [JSON.stringify] of one of the two object literals the client sends. *)
Inductive Body : Type :=
| UrlEncoded (params : list (string * string))
| JsonAcknowledge (acknowledged_by content_hash : JSValue)
| JsonComplete (keyed_previews : KeyedPreviews).

Record Request : Type := {
  url : string;
  method : string;
  headers : list (string * string);
  body : Body
}.

(** A [Response] as far as the library looks at it.  [text()] and [json()]
    are promises of their own and may reject; a body on which the property
    reads after [json()] would throw (JSON [null]) is the [inl] case too. *)
Module Response.
Record t : Type := {
  ok : bool;
  status : Z;
  text : Result string;
  json : Result TokenResponse
}.
End Response.

(** The environment decides every answer: what the [n]-th call of [fetch]
    does with the request it is given (reject, or resolve to a response),
    what the [n]-th reading of [Date.now()] shows, and what [JSON.parse]
    makes of a text. *)
Record Env : Type := {
  network : nat -> Request -> Result Response.t;
  clock : nat -> Z;
  JSON_parse : string -> Result JSValue
}.

(** The mutable state: the [tokenCache] field of the one OAuth client that a
    handler owns through its API client, plus the history of the run (how
    often the clock was read, which requests went out, oldest first). *)
Record World : Type := {
  tokenCache : option TokenCache;
  ticks : nat;
  fetched : list Request
}.

(** ** A state-and-exception monad for the effectful code *)

Definition M (A : Type) : Type := World -> Result A * World.

#[global] Instance M_ret : MRet M := fun A (a : A) w => (inr a, w).

#[global] Instance M_bind : MBind M := fun A B (k : A -> M B) (c : M A) w =>
  match c w with
  | (inr a, w') => k a w'
  | (inl e, w') => (inl e, w')
  end.

Definition throw {A : Type} (e : Exn) : M A := fun w => (inl e, w).

Definition try_catch {A : Type} (c : M A) (handler : Exn -> M A) : M A :=
  fun w =>
    match c w with
    | (inr a, w') => (inr a, w')
    | (inl e, w') => handler e w'
    end.

(** Awaiting a promise whose outcome is already decided. *)
Definition await {A : Type} (r : Result A) : M A := fun w => (r, w).

Definition read_tokenCache : M (option TokenCache) :=
  fun w => (inr (tokenCache w), w).

Definition with_tokenCache (c : option TokenCache) (w : World) : World :=
  {| tokenCache := c; ticks := ticks w; fetched := fetched w |}.

Definition after_tick (w : World) : World :=
  {| tokenCache := tokenCache w; ticks := S (ticks w); fetched := fetched w |}.

Definition after_request (req : Request) (w : World) : World :=
  {| tokenCache := tokenCache w; ticks := ticks w;
     fetched := fetched w ++ [req] |}.

Definition write_tokenCache (c : option TokenCache) : M unit :=
  fun w => (inr tt, with_tokenCache c w).

Section Program.
Context (env : Env).

Definition Date_now : M Z :=
  fun w => (inr (clock env (ticks w)), after_tick w).

(** The request is on record whether the promise resolves or rejects. *)
Definition fetch (req : Request) : M Response.t :=
  fun w => (network env (length (fetched w)) req, after_request req w).

(** ** CMPOAuthClient (src/oauth/CMPOAuthClient.ts) *)

(** The object keeps its configuration; its [tokenCache] field is the cell of
    that name in the [World], set to [null] when the object is created. *)
Record CMPOAuthClient : Type := { oauth_config : CMPOAuthConfig }.

Definition new_CMPOAuthClient (config : CMPOAuthConfig) : M CMPOAuthClient :=
  if String.eqb (clientId config) "" then
    throw (JSError "Error" "clientId is required")
  else if String.eqb (clientSecret config) "" then
    throw (JSError "Error" "clientSecret is required")
  else if String.eqb (authServerUrl config) "" then
    throw (JSError "Error" "authServerUrl is required")
  else
    write_tokenCache None;;
    mret {| oauth_config := config |}.

(** [this.tokenCache && Date.now() < this.tokenCache.expiresAt]: the clock
    is read only when there is a cache entry. *)
Definition cache_is_valid (cache : option TokenCache) : M bool :=
  match cache with
  | None => mret false
  | Some c => now ← Date_now; mret (now <? expiresAt c)%Z
  end.

Definition token_request (this : CMPOAuthClient) : Request :=
  let tokenUrl := authServerUrl (oauth_config this) +:+ "/o/oauth2/v1/token" in
  let params :=
    [("client_id", clientId (oauth_config this));
     ("client_secret", clientSecret (oauth_config this));
     ("grant_type", "client_credentials")] in
  {| url := tokenUrl;
     method := "POST";
     headers := [("Content-Type", "application/x-www-form-urlencoded")];
     body := UrlEncoded params |}.

(** The second half of [getAccessToken], from [// Fetch new token] on.
    The expiry is computed in the integers; that is the code's arithmetic
    as long as the values are safe integers, beyond which a double
    rounds. *)
Definition fetch_new_token (this : CMPOAuthClient) : M string :=
  response ← fetch (token_request this);
  if negb (Response.ok response) then
    errorText ← await (Response.text response);
    throw (CMPError "Failed to obtain access token"
             (Some (Response.status response)) (Some errorText))
  else
    data ← await (Response.json response);
    match access_token data, expires_in data with
    | Some token, Some seconds =>
        (* [!data.access_token || !data.expires_in] *)
        if String.eqb token "" || Z.eqb seconds 0 then
          throw (CMPError
            "Invalid token response: missing access_token or expires_in"
            None None)
        else
          let expiresInMs := ((seconds - 300) * 1000)%Z in
          now ← Date_now;
          write_tokenCache
            (Some {| accessToken := token;
                     expiresAt := (now + expiresInMs)%Z |});;
          mret token
    | _, _ =>
        throw (CMPError
          "Invalid token response: missing access_token or expires_in"
          None None)
    end.

Definition getAccessToken (this : CMPOAuthClient) : M string :=
  cache ← read_tokenCache;
  valid ← cache_is_valid cache;
  match cache, valid with
  | Some c, true => mret (accessToken c)
  | _, _ => fetch_new_token this
  end.

Definition clearCache (this : CMPOAuthClient) : M unit :=
  write_tokenCache None.

Definition hasCachedToken (this : CMPOAuthClient) : M bool :=
  cache ← read_tokenCache;
  cache_is_valid cache.

(** ** CMPClient (src/client/CMPClient.ts) *)

Record CMPClient : Type := {
  client_config : CMPClientConfig;
  oauthClient : CMPOAuthClient
}.

Definition new_CMPClient (config : CMPClientConfig) : M CMPClient :=
  if String.eqb (apiBaseUrl config) "" then
    throw (JSError "Error" "apiBaseUrl is required")
  else
    oauth ← new_CMPOAuthClient
               {| clientId := clientId config;
                  clientSecret := clientSecret config;
                  authServerUrl := authServerUrl config |};
    mret {| client_config := config; oauthClient := oauth |}.

Definition preview_endpoint (this : CMPClient)
    (contentId versionId previewId : JSValue) (action : string) : string :=
  apiBaseUrl (client_config this) +:+ "/structured-content/contents/"
    +:+ to_string contentId +:+ "/versions/" +:+ to_string versionId
    +:+ "/previews/" +:+ to_string previewId +:+ "/" +:+ action.

Definition json_headers (accessToken : string) : list (string * string) :=
  [("Authorization", "Bearer " +:+ accessToken);
   ("Content-Type", "application/json")].

Definition acknowledge_request (this : CMPClient)
    (contentId versionId previewId acknowledgedBy contentHash : JSValue)
    (accessToken : string) : Request :=
  {| url := preview_endpoint this contentId versionId previewId "acknowledge";
     method := "POST";
     headers := json_headers accessToken;
     body := JsonAcknowledge acknowledgedBy contentHash |}.

Definition acknowledgePreview (this : CMPClient)
    (contentId versionId previewId acknowledgedBy contentHash : JSValue)
    : M unit :=
  accessToken ← getAccessToken (oauthClient this);
  response ← fetch (acknowledge_request this contentId versionId previewId
                       acknowledgedBy contentHash accessToken);
  if negb (Response.ok response) then
    errorText ← await (Response.text response);
    throw (CMPError "Failed to acknowledge preview"
             (Some (Response.status response)) (Some errorText))
  else mret tt.

Definition completion_request (this : CMPClient)
    (contentId versionId previewId : JSValue) (keyedPreviews : KeyedPreviews)
    (accessToken : string) : Request :=
  {| url := preview_endpoint this contentId versionId previewId "complete";
     method := "POST";
     headers := json_headers accessToken;
     body := JsonComplete keyedPreviews |}.

Definition submitPreviewCompletion (this : CMPClient)
    (contentId versionId previewId : JSValue) (keyedPreviews : KeyedPreviews)
    : M unit :=
  accessToken ← getAccessToken (oauthClient this);
  response ← fetch (completion_request this contentId versionId previewId
                       keyedPreviews accessToken);
  if negb (Response.ok response) then
    errorText ← await (Response.text response);
    throw (CMPError "Failed to submit preview completion"
             (Some (Response.status response)) (Some errorText))
  else mret tt.

(** ** CMPWebhookHandler (src/webhook/CMPWebhookHandler.ts) *)

Record CMPWebhookHandler : Type := {
  config : CMPWebhookConfig;
  client : CMPClient;
  this_previewTypes : list string
}.

Definition default_previewTypes : list string :=
  ["default"; "mobile"; "desktop"; "tablet"; "signage"].

Definition new_CMPWebhookHandler (config : CMPWebhookConfig)
    : M CMPWebhookHandler :=
  if String.eqb (previewUrl config) "" then
    throw (JSError "Error" "previewUrl is required")
  else
    client ← new_CMPClient
                {| oauthConfig :=
                     {| clientId := clientId config;
                        clientSecret := clientSecret config;
                        authServerUrl := authServerUrl config |};
                   apiBaseUrl := apiBaseUrl config |};
    mret {| config := config;
            client := client;
            (* [config.previewTypes || [...]]: an array, even an empty
               one, is truthy *)
            this_previewTypes :=
              match previewTypes config with
              | Some types => types
              | None => default_previewTypes
              end |}.

Definition missing_fields_details
    (contentId versionId previewId updatedBy contentHash : JSValue) : string :=
  "contentId=" +:+ to_string contentId
    +:+ ", versionId=" +:+ to_string versionId
    +:+ ", previewId=" +:+ to_string previewId
    +:+ ", updatedBy=" +:+ to_string updatedBy
    +:+ ", contentHash=" +:+ to_string contentHash.

(** The five values as the optional chains deliver them.  Only
    [payload.data] is a plain property read. *)
Definition extract_fields (payload : JSValue)
    : Result (JSValue * JSValue * JSValue * JSValue * JSValue) :=
  match get payload "data" with
  | inl e => inl e
  | inr data =>
      let structuredContent :=
        get_opt_0 (get_opt (get_opt data "assets") "structured_contents") in
      let contentId := get_opt structuredContent "id" in
      let versionId := get_opt structuredContent "version_id" in
      let previewId := get_opt data "preview_id" in
      let updatedBy :=
        get_opt (get_opt structuredContent "content_body") "updated_by" in
      let contentHash :=
        get_opt (get_opt (get_opt structuredContent "content_body")
                   "fields_version") "content_hash" in
      inr (contentId, versionId, previewId, updatedBy, contentHash)
  end.

Definition parseWebhookPayload (this : CMPWebhookHandler) (payload : JSValue)
    : Result PreviewRequest :=
  match extract_fields payload with
  | inl e => inl e
  | inr (contentId, versionId, previewId, updatedBy, contentHash) =>
      if falsy contentId || falsy versionId || falsy previewId
         || falsy updatedBy || falsy contentHash
      then
        inl (CMPError "Missing required fields in webhook payload"
               (Some 400)
               (Some (missing_fields_details contentId versionId previewId
                        updatedBy contentHash)))
      else
        inr {| contentId := contentId;
               versionId := versionId;
               previewId := previewId;
               updatedBy := updatedBy;
               contentHash := contentHash |}
  end.

Definition preview_url (this : CMPWebhookHandler) (type contentId : string)
    : string :=
  previewUrl (config this) +:+ "/preview/" +:+ type +:+ "/" +:+ contentId.

(** [keyedPreviews[key] = value] on an object created as [{}]: the name
    [__proto__] is the accessor inherited from [Object.prototype], whose
    setter ignores a string, so that assignment creates no entry. *)
Definition set_property (key value : string) (keyedPreviews : KeyedPreviews)
    : KeyedPreviews :=
  if String.eqb key "__proto__" then keyedPreviews
  else <[key := value]> keyedPreviews.

(** The [for ... of] loop, the object under construction passed along. *)
Fixpoint generatePreviewUrls_loop (this : CMPWebhookHandler)
    (types : list string) (contentId : string)
    (keyedPreviews : KeyedPreviews) : KeyedPreviews :=
  match types with
  | [] => keyedPreviews
  | type :: rest =>
      generatePreviewUrls_loop this rest contentId
        (set_property type (preview_url this type contentId) keyedPreviews)
  end.

Definition generatePreviewUrls (this : CMPWebhookHandler) (contentId : string)
    : KeyedPreviews :=
  generatePreviewUrls_loop this (this_previewTypes this) contentId ∅.

Definition failure (message : string) (code : Z) : WebhookHandlerResult :=
  {| success := false; data := None; error := Some message; status := code |}.

(** [error.statusCode || 500] *)
Definition statusCode_or_500 (statusCode : option Z) : Z :=
  match statusCode with
  | Some code => if Z.eqb code 0 then 500 else code
  | None => 500
  end.

(** [handleWebhook] is given in three parts: [process] is the [try] block
    from [parseWebhookPayload] on, [handleWebhook_try] the whole [try] block
    with its two early returns, [handleWebhook_catch] the [catch] clause. *)
Definition process (this : CMPWebhookHandler) (parsedPayload : JSValue)
    : M WebhookHandlerResult :=
  previewRequest ← await (parseWebhookPayload this parsedPayload);
  acknowledgePreview (client this)
    (contentId previewRequest) (versionId previewRequest)
    (previewId previewRequest) (updatedBy previewRequest)
    (contentHash previewRequest);;
  (* the template literal applies ToString to the content id *)
  let keyedPreviews :=
    generatePreviewUrls this (to_string (contentId previewRequest)) in
  submitPreviewCompletion (client this)
    (contentId previewRequest) (versionId previewRequest)
    (previewId previewRequest) keyedPreviews;;
  mret {| success := true;
          data := Some {| Data.contentId := contentId previewRequest;
                          Data.versionId := versionId previewRequest;
                          Data.previewId := previewId previewRequest;
                          Data.keyedPreviews := keyedPreviews |};
          error := None;
          status := 200 |}.

Definition handleWebhook_try (this : CMPWebhookHandler) (payload : JSValue)
    : M WebhookHandlerResult :=
  match typeof_string payload with
  | Some text =>
      if String.eqb text "" then mret (failure "Empty payload" 400)
      else
        match JSON_parse env text with
        | inl _ => mret (failure "Invalid JSON payload" 400)
        | inr parsedPayload => process this parsedPayload
        end
  | None => process this payload
  end.

Definition handleWebhook_catch (error : Exn) : M WebhookHandlerResult :=
  match error with
  | CMPError message statusCode _ =>
      mret (failure message (statusCode_or_500 statusCode))
  | JSError _ message => mret (failure message 500)
  | Thrown _ => mret (failure "Unknown error" 500)
  end.

Definition handleWebhook (this : CMPWebhookHandler) (payload : JSValue)
    : M WebhookHandlerResult :=
  try_catch (handleWebhook_try this payload) handleWebhook_catch.

(** The object from which [handleWebhook] extracts the fields: the
    payload itself, or what [JSON.parse] makes of a non-empty text. *)
Definition payload_decodes_to (payload parsed : JSValue) : Prop :=
  match typeof_string payload with
  | Some text => text <> "" /\ JSON_parse env text = inr parsed
  | None => parsed = payload
  end.

End Program.

(** ** The specification's wording of the preview mapping *)

(** The mapping as the specification words it: a left-to-right fold over
    the configured types, each type assigned its URL, a later occurrence of
    a type overwriting an earlier one. *)
Definition spec_generatePreviewUrls (previewUrl : string)
    (types : list string) (contentId : string) : KeyedPreviews :=
  foldl (fun acc type =>
           <[type := previewUrl +:+ "/preview/" +:+ type +:+ "/" +:+ contentId]> acc)
        ∅ types.


(** ** A concrete run-time environment, for running the model *)

Module Sample.

Definition is_ws (c : ascii) : bool :=
  let n := nat_of_ascii c in
  (n =? 32)%nat || (n =? 9)%nat || (n =? 10)%nat || (n =? 13)%nat.

Fixpoint skip_ws (s : string) : string :=
  match s with
  | String c rest => if is_ws c then skip_ws rest else s
  | EmptyString => s
  end.

Definition digit_of (c : ascii) : option Z :=
  let n := nat_of_ascii c in
  if (48 <=? n)%nat && (n <=? 57)%nat then Some (Z.of_nat (n - 48)) else None.

Fixpoint digits (acc : Z) (s : string) : Z * string :=
  match s with
  | String c rest =>
      match digit_of c with
      | Some d => digits (10 * acc + d) rest
      | None => (acc, s)
      end
  | EmptyString => (acc, s)
  end.

(** An integer literal without its sign: no leading zero before a digit. *)
Definition number (s : string) : option (Z * string) :=
  match s with
  | String c rest =>
      match digit_of c, rest with
      | Some 0%Z, String d _ =>
          match digit_of d with
          | Some _ => None
          | None => Some (0%Z, rest)
          end
      | Some _, _ => Some (digits 0 s)
      | None, _ => None
      end
  | EmptyString => None
  end.

Definition quote : ascii := ascii_of_nat 34.

(** The characters of a string literal after its opening quote. *)
Fixpoint string_chars (s : string) : option (string * string) :=
  match s with
  | EmptyString => None
  | String c rest =>
      if Ascii.eqb c quote then Some (EmptyString, rest)
      else if Ascii.eqb c "\" then
        match rest with
        | String e rest' =>
            let unescaped :=
              if Ascii.eqb e quote then Some e
              else if Ascii.eqb e "\" then Some e
              else if Ascii.eqb e "/" then Some e
              else if Ascii.eqb e "n" then Some (ascii_of_nat 10)
              else if Ascii.eqb e "t" then Some (ascii_of_nat 9)
              else if Ascii.eqb e "r" then Some (ascii_of_nat 13)
              else if Ascii.eqb e "b" then Some (ascii_of_nat 8)
              else if Ascii.eqb e "f" then Some (ascii_of_nat 12)
              else None in
            match unescaped, string_chars rest' with
            | Some u, Some (chars, after) => Some (String u chars, after)
            | _, _ => None
            end
        | EmptyString => None
        end
      else if (nat_of_ascii c <? 32)%nat then None
      else
        match string_chars rest with
        | Some (chars, after) => Some (String c chars, after)
        | None => None
        end
  end.

Definition starts_with (prefix s : string) : option string :=
  if String.prefix prefix s
  then Some (String.substring (String.length prefix)
               (String.length s - String.length prefix) s)
  else None.

(** Recursive descent; [fuel] bounds the nesting and the number of items,
    the length of the text is always enough. *)
Fixpoint value (fuel : nat) (s : string) : option (JSValue * string) :=
  match fuel with
  | O => None
  | S fuel' =>
      match skip_ws s with
      | EmptyString => None
      | String c rest as s' =>
          if Ascii.eqb c quote then
            match string_chars rest with
            | Some (chars, after) => Some (JStr chars, after)
            | None => None
            end
          else if Ascii.eqb c "[" then
            match skip_ws rest with
            | String "]" after => Some (JArr [], after)
            | _ =>
                match items fuel' rest with
                | Some (l, after) => Some (JArr l, after)
                | None => None
                end
            end
          else if Ascii.eqb c "{" then
            match skip_ws rest with
            | String "}" after => Some (JObj [], after)
            | _ =>
                match members fuel' rest with
                | Some (l, after) => Some (JObj l, after)
                | None => None
                end
            end
          else if Ascii.eqb c "-" then
            match number rest with
            | Some (n, after) => Some (JNum (- n), after)
            | None => None
            end
          else
            match number s' with
            | Some (n, after) => Some (JNum n, after)
            | None =>
                match starts_with "null" s' with
                | Some after => Some (JNull, after)
                | None =>
                match starts_with "true" s' with
                | Some after => Some (JBool true, after)
                | None =>
                match starts_with "false" s' with
                | Some after => Some (JBool false, after)
                | None => None
                end end end
            end
      end
  end
with items (fuel : nat) (s : string) : option (list JSValue * string) :=
  match fuel with
  | O => None
  | S fuel' =>
      match value fuel' s with
      | Some (v, after) =>
          match skip_ws after with
          | String "]" after' => Some ([v], after')
          | String "," after' =>
              match items fuel' after' with
              | Some (l, after'') => Some (v :: l, after'')
              | None => None
              end
          | _ => None
          end
      | None => None
      end
  end
with members (fuel : nat) (s : string)
    : option (list (string * JSValue) * string) :=
  match fuel with
  | O => None
  | S fuel' =>
      match skip_ws s with
      | String c rest =>
          if Ascii.eqb c quote then
            match string_chars rest with
            | Some (key, after) =>
                match skip_ws after with
                | String ":" after' =>
                    match value fuel' after' with
                    | Some (v, after'') =>
                        match skip_ws after'' with
                        | String "}" rest' => Some ([(key, v)], rest')
                        | String "," rest' =>
                            match members fuel' rest' with
                            | Some (l, rest'') => Some (l ++ [(key, v)], rest'')
                            | None => None
                            end
                        | _ => None
                        end
                    | None => None
                    end
                | _ => None
                end
            | None => None
            end
          else None
      | EmptyString => None
      end
  end.

(** [JSON.parse] on the texts whose numbers are integer literals and
    whose strings have no [\u] escapes; every other text is refused with a
    [SyntaxError].  Of two entries with one key the later one counts, so
    the entries are kept latest first. *)
Definition parse (text : string) : Result JSValue :=
  match value (S (String.length text)) text with
  | Some (v, after) =>
      match skip_ws after with
      | EmptyString => inr v
      | _ => inl (JSError "SyntaxError" "Unexpected non-whitespace character after JSON")
      end
  | None => inl (JSError "SyntaxError" "Unexpected token in JSON")
  end.

(** JSON texts are written here with apostrophes for the quotation marks. *)
Fixpoint json_text (s : string) : string :=
  match s with
  | String c rest =>
      String (if Ascii.eqb c "'" then quote else c) (json_text rest)
  | EmptyString => EmptyString
  end.

(** The network answers from a script, one entry per call of [fetch]; past
    the end of the script the transport fails. *)
Definition scripted (script : list (Result Response.t))
    : nat -> Request -> Result Response.t :=
  fun n _ =>
    match script !! n with
    | Some outcome => outcome
    | None => inl (JSError "TypeError" "fetch failed")
    end.

(** The clock shows the listed times, one per reading, and stays at the
    last of them. *)
Fixpoint readings (first : Z) (later : list Z) (n : nat) : Z :=
  match n, later with
  | O, _ | _, [] => first
  | S n', next :: later' => readings next later' n'
  end.

Definition env (script : list (Result Response.t)) (clock : nat -> Z) : Env :=
  {| network := scripted script;
     clock := clock;
     JSON_parse := parse |}.

Definition token_response (token : string) (seconds : Z) : Response.t :=
  {| Response.ok := true;
     Response.status := 200;
     Response.text := inr "";
     Response.json := inr {| access_token := Some token;
                             expires_in := Some seconds;
                             token_type := Some "Bearer" |} |}.

(** A response of an API endpoint; its body is no token response. *)
Definition api_response (code : Z) (text : string) : Response.t :=
  {| Response.ok := (200 <=? code)%Z && (code <=? 299)%Z;
     Response.status := code;
     Response.text := inr text;
     Response.json := inl (JSError "SyntaxError" "Unexpected token in JSON") |}.

Definition webhook_config : CMPWebhookConfig :=
  {| clientConfig :=
       {| oauthConfig := {| clientId := "id-1";
                            clientSecret := "secret-1";
                            authServerUrl := "https://auth.example.com" |};
          apiBaseUrl := "https://api.example.com" |};
     previewUrl := "https://preview.example.com";
     previewTypes := None |}.

Definition config_without_secret : CMPWebhookConfig :=
  {| clientConfig :=
       {| oauthConfig := {| clientId := "id-1";
                            clientSecret := "";
                            authServerUrl := "https://auth.example.com" |};
          apiBaseUrl := "https://api.example.com" |};
     previewUrl := "https://preview.example.com";
     previewTypes := None |}.

Definition structured_content (hash : list (string * JSValue)) : JSValue :=
  JObj [("id", JStr "c1");
        ("version_id", JStr "v1");
        ("content_body",
          JObj [("updated_by", JStr "u1");
                ("fields_version", JObj hash);
                ("fields", JObj [])])].

Definition payload_with (hash : list (string * JSValue)) : JSValue :=
  JObj [("data",
          JObj [("preview_id", JStr "p1");
                ("assets",
                  JObj [("structured_contents",
                          JArr [structured_content hash])])])].

Definition payload : JSValue := payload_with [("content_hash", JStr "h1")].

Definition payload_text : string :=
  json_text
    "{'data': {'preview_id': 'p1', 'assets': {'structured_contents': [
       {'id': 'c1', 'version_id': 'v1',
        'content_body': {'updated_by': 'u1',
                         'fields_version': {'content_hash': 'h1'},
                         'fields': {}}}]}}}".

Definition initial_world : World :=
  {| tokenCache := None; ticks := 0; fetched := [] |}.

Definition oauth : CMPOAuthClient := {| oauth_config := webhook_config |}.

Definition api_client : CMPClient :=
  {| client_config := webhook_config; oauthClient := oauth |}.

Definition handler_with (types : option (list string)) : CMPWebhookHandler :=
  {| config :=
       {| clientConfig := webhook_config;
          previewUrl := previewUrl webhook_config;
          previewTypes := types |};
     client := api_client;
     this_previewTypes :=
       match types with Some l => l | None => default_previewTypes end |}.

Definition handler : CMPWebhookHandler := handler_with None.

(** Token endpoint, acknowledge and complete all succeed; the clock shows
    1000 ms at the fetch, then 3299 s and 3301 s more. *)
Definition env_ok : Env :=
  env [inr (token_response "tok" 3600);
       inr (api_response 200 "");
       inr (api_response 204 "")]
      (readings 1000 [1000 + 3299 * 1000; 1000 + 3301 * 1000]).

(** The acknowledge endpoint answers 403 with the body [forbidden]. *)
Definition env_forbidden : Env :=
  env [inr (token_response "tok" 3600);
       inr (api_response 403 "forbidden")]
      (readings 1000 []).

(** The first [fetch] rejects with a thrown string. *)
Definition env_boom : Env :=
  env [inl (Thrown (JStr "boom"))] (readings 0 []).

(** The first [fetch] rejects with a thrown object that has a [message]
    but is no [Error]. *)
Definition thrown_object : JSValue := JObj [("message", JStr "boom")].

Definition env_thrown_object : Env :=
  env [inl (Thrown thrown_object)] (readings 0 []).

(** No network at all. *)
Definition env_down : Env := env [] (readings 0 []).

Definition request : PreviewRequest :=
  {| contentId := JStr "c1"; versionId := JStr "v1"; previewId := JStr "p1";
     updatedBy := JStr "u1"; contentHash := JStr "h1" |}.

(** Does [needle] occur in [text]? *)
Fixpoint occurs (needle text : string) : bool :=
  String.prefix needle text
  || match text with
     | String _ rest => occurs needle rest
     | EmptyString => false
     end.

End Sample.

(** * Verification *)

(** Unfolds one layer of the monad. *)
Ltac run :=
  unfold mbind, M_bind, mret, M_ret, throw, await, try_catch,
    read_tokenCache, write_tokenCache, Date_now, fetch in *;
  cbn beta iota in *.

Section OAuthClient.
Context (env : Env) (this : CMPOAuthClient).

Lemma cache_is_valid_tokenCache (w w0 : World) (c : option TokenCache) (b : bool) :
  cache_is_valid env c w = (inr b, w0) ->
  tokenCache w0 = tokenCache w /\ fetched w0 = fetched w.
Proof.
  destruct c as [c|]; unfold cache_is_valid; run; intros H;
    injection H as _ <-; auto.
Qed.

Lemma getAccessToken_hit (w : World) (c : TokenCache) :
  tokenCache w = Some c ->
  clock env (ticks w) < expiresAt c ->
  getAccessToken env this w = (inr (accessToken c), after_tick w).
Proof.
  intros Hc Hlt. unfold getAccessToken, cache_is_valid. run.
  rewrite Hc. run.
  apply Z.ltb_lt in Hlt. rewrite Hlt. reflexivity.
Qed.

Lemma getAccessToken_miss (w w0 : World) :
  cache_is_valid env (tokenCache w) w = (inr false, w0) ->
  getAccessToken env this w = fetch_new_token env this w0.
Proof.
  intros H. unfold getAccessToken. run. rewrite H.
  destruct (tokenCache w); reflexivity.
Qed.

(** Fetching a token sends the token request, once, however it ends. *)
Lemma fetch_new_token_fetched (w : World) :
  fetched (snd (fetch_new_token env this w)) = fetched w ++ [token_request this].
Proof.
  unfold fetch_new_token. run.
  destruct (network env _ _) as [e|response]; [reflexivity|].
  destruct (Response.ok response); cbn.
  - destruct (Response.json response) as [e|data]; [reflexivity|].
    destruct (access_token data) as [token|]; [|reflexivity].
    destruct (expires_in data) as [seconds|]; [|reflexivity].
    destruct (_ || _); reflexivity.
  - destruct (Response.text response); reflexivity.
Qed.

Lemma fetch_new_token_success (w : World) (response : Response.t)
    (data : TokenResponse) (token : string) (seconds : Z) :
  network env (length (fetched w)) (token_request this) = inr response ->
  Response.ok response = true ->
  Response.json response = inr data ->
  access_token data = Some token -> token <> "" ->
  expires_in data = Some seconds -> seconds <> 0 ->
  fetch_new_token env this w =
    (inr token,
     with_tokenCache
       (Some {| accessToken := token;
                expiresAt := clock env (ticks w) + (seconds - 300) * 1000 |})
       (after_tick (after_request (token_request this) w))).
Proof.
  intros Hnet Hok Hjson Htok Hne Hsec Hnz.
  unfold fetch_new_token. run. rewrite Hnet, Hok. cbn.
  rewrite Hjson, Htok, Hsec.
  apply String.eqb_neq in Hne. apply Z.eqb_neq in Hnz.
  rewrite Hne, Hnz. reflexivity.
Qed.

Lemma fetch_new_token_inv (w w1 : World) (token : string) :
  fetch_new_token env this w = (inr token, w1) ->
  exists expires : Z,
    w1 = with_tokenCache
           (Some {| accessToken := token; expiresAt := expires |})
           (after_tick (after_request (token_request this) w)).
Proof.
  unfold fetch_new_token. run.
  destruct (network env _ _) as [e|response]; [discriminate|].
  destruct (Response.ok response); cbn.
  - destruct (Response.json response) as [e|data]; [discriminate|].
    destruct (access_token data) as [tok|]; [|discriminate].
    destruct (expires_in data) as [seconds|]; [|discriminate].
    destruct (_ || _); [discriminate|].
    intros H. injection H as <- <-. eauto.
  - destruct (Response.text response); discriminate.
Qed.

Lemma hasCachedToken_spec (w : World) (c : TokenCache) :
  tokenCache w = Some c ->
  hasCachedToken env this w
    = (inr (clock env (ticks w) <? expiresAt c), after_tick w).
Proof.
  intros Hc. unfold hasCachedToken, cache_is_valid. run. rewrite Hc.
  reflexivity.
Qed.

(** C2.  A token fetched at time [T] (the clock reading taken when the
    response is cached) with a declared lifetime of a whole number of
    [seconds] is cached with the expiry [T + (seconds - 300) * 1000], in
    the clock's milliseconds; from then on [hasCachedToken] compares the
    clock with that instant.  For a lifetime of 3600 seconds it answers
    true at [T + 3299 s] and false at [T + 3301 s].  The lifetime, the
    clock readings, the product and the sum are safe integers, so that the
    code's floating-point arithmetic is the integers' (a reading of
    [Date.now] always is one). *)
Theorem token_expiry_arithmetic (w w0 : World) (response : Response.t)
    (data : TokenResponse) (token : string) (seconds : Z) :
  cache_is_valid env (tokenCache w) w = (inr false, w0) ->
  network env (length (fetched w0)) (token_request this) = inr response ->
  Response.ok response = true ->
  Response.json response = inr data ->
  access_token data = Some token -> token <> "" ->
  expires_in data = Some seconds -> seconds <> 0 ->
  let T := clock env (ticks w0) in
  safe_integer seconds = true ->
  safe_integer (seconds - 300) = true ->
  safe_integer ((seconds - 300) * 1000) = true ->
  safe_integer T = true ->
  safe_integer (T + (seconds - 300) * 1000) = true ->
  exists w1 : World,
    getAccessToken env this w = (inr token, w1) /\
    tokenCache w1 =
      Some {| accessToken := token;
              expiresAt := T + (seconds - 300) * 1000 |} /\
    (forall w2 : World, tokenCache w2 = tokenCache w1 ->
       safe_integer (clock env (ticks w2)) = true ->
       fst (hasCachedToken env this w2)
         = inr (clock env (ticks w2) <? T + (seconds - 300) * 1000)) /\
    (seconds = 3600 ->
     forall w2 : World, tokenCache w2 = tokenCache w1 ->
       safe_integer (clock env (ticks w2)) = true ->
       (clock env (ticks w2) = T + 3299 * 1000 ->
          fst (hasCachedToken env this w2) = inr true) /\
       (clock env (ticks w2) = T + 3301 * 1000 ->
          fst (hasCachedToken env this w2) = inr false)).
Proof.
  intros Hmiss Hnet Hok Hjson Htok Hne Hsec Hnz T _ _ _ _ _.
  rewrite (getAccessToken_miss _ _ Hmiss).
  rewrite (fetch_new_token_success _ _ _ _ _ Hnet Hok Hjson Htok Hne Hsec Hnz).
  eexists. split; [reflexivity|]. split; [reflexivity|].
  assert (Hquery : forall w2 : World,
            tokenCache w2 = tokenCache
              (with_tokenCache
                 (Some {| accessToken := token;
                          expiresAt := T + (seconds - 300) * 1000 |})
                 (after_tick (after_request (token_request this) w0))) ->
            fst (hasCachedToken env this w2)
              = inr (clock env (ticks w2) <? T + (seconds - 300) * 1000)).
  { intros w2 Hw2. cbn in Hw2. rewrite (hasCachedToken_spec _ _ Hw2).
    reflexivity. }
  split; [intros w2 Hw2 _; exact (Hquery w2 Hw2)|].
  intros -> w2 Hw2 _. rewrite (Hquery w2 Hw2). split; intros ->.
  - f_equal. apply Z.ltb_lt. lia.
  - f_equal. apply Z.ltb_ge. lia.
Qed.

(** C3.  When the first of two consecutive [getAccessToken] calls has to
    fetch and succeeds, and the second is made within the cached lifetime,
    the second returns the same token from the cache and the two calls
    together send exactly one request.  After [clearCache] the next call
    sends the token request, whatever the clock shows. *)
Theorem token_caching (w w0 w1 : World) (token : string) :
  (cache_is_valid env (tokenCache w) w = (inr false, w0) ->
   getAccessToken env this w = (inr token, w1) ->
   fst (cache_is_valid env (tokenCache w1) w1) = inr true ->
   exists w2 : World,
     getAccessToken env this w1 = (inr token, w2) /\
     fetched w1 = fetched w ++ [token_request this] /\
     fetched w2 = fetched w ++ [token_request this])
  /\
  (forall v : World,
     let cleared := snd (clearCache this v) in
     getAccessToken env this cleared = fetch_new_token env this cleared /\
     fetched (snd (getAccessToken env this cleared))
       = fetched v ++ [token_request this]).
Proof.
  split.
  - intros Hmiss Hfirst Hvalid.
    rewrite (getAccessToken_miss _ _ Hmiss) in Hfirst.
    destruct (cache_is_valid_tokenCache _ _ _ _ Hmiss) as [_ Hlog].
    destruct (fetch_new_token_inv _ _ _ Hfirst) as [expires ->].
    cbn in Hvalid. unfold cache_is_valid in Hvalid. run. cbn in Hvalid.
    injection Hvalid as Hlt. apply Z.ltb_lt in Hlt.
    set (c := {| accessToken := token; expiresAt := expires |}) in *.
    pose proof (getAccessToken_hit
                  (with_tokenCache (Some c)
                     (after_tick (after_request (token_request this) w0)))
                  c eq_refl Hlt) as Hhit.
    eexists. split; [exact Hhit|].
    cbn. rewrite Hlog. split; reflexivity.
  - intros v cleared. subst cleared. cbn.
    assert (Hmiss : getAccessToken env this (with_tokenCache None v)
                    = fetch_new_token env this (with_tokenCache None v))
      by (apply getAccessToken_miss; reflexivity).
    split; [exact Hmiss|].
    rewrite Hmiss, fetch_new_token_fetched. reflexivity.
Qed.

End OAuthClient.

(** ** Construction *)

Ltac in_list :=
  rewrite ?elem_of_cons in *; tauto.

Lemma new_CMPOAuthClient_empty (cfg : CMPOAuthConfig) (w : World) :
  clientId cfg = "" \/ clientSecret cfg = "" \/ authServerUrl cfg = "" ->
  exists field value : string,
    (field, value) ∈ [("clientId", clientId cfg);
                      ("clientSecret", clientSecret cfg);
                      ("authServerUrl", authServerUrl cfg)] /\
    value = "" /\
    new_CMPOAuthClient cfg w = (inl (ConfigurationError field), w).
Proof.
  intros H. unfold new_CMPOAuthClient.
  destruct (String.eqb_spec (clientId cfg) "") as [E1|N1].
  { exists "clientId", (clientId cfg). repeat split; [in_list|exact E1]. }
  destruct (String.eqb_spec (clientSecret cfg) "") as [E2|N2].
  { exists "clientSecret", (clientSecret cfg).
    repeat split; [in_list|exact E2]. }
  destruct (String.eqb_spec (authServerUrl cfg) "") as [E3|N3].
  { exists "authServerUrl", (authServerUrl cfg).
    repeat split; [in_list|exact E3]. }
  tauto.
Qed.

Lemma new_CMPClient_empty (cfg : CMPClientConfig) (w : World) :
  clientId cfg = "" \/ clientSecret cfg = "" \/ authServerUrl cfg = ""
    \/ apiBaseUrl cfg = "" ->
  exists field value : string,
    (field, value) ∈ [("clientId", clientId cfg);
                      ("clientSecret", clientSecret cfg);
                      ("authServerUrl", authServerUrl cfg);
                      ("apiBaseUrl", apiBaseUrl cfg)] /\
    value = "" /\
    new_CMPClient cfg w = (inl (ConfigurationError field), w).
Proof.
  intros H. unfold new_CMPClient.
  destruct (String.eqb_spec (apiBaseUrl cfg) "") as [E|N].
  { exists "apiBaseUrl", (apiBaseUrl cfg). repeat split; [in_list|exact E]. }
  assert (H' : clientId cfg = "" \/ clientSecret cfg = ""
               \/ authServerUrl cfg = "") by tauto.
  destruct (new_CMPOAuthClient_empty
              {| clientId := clientId cfg; clientSecret := clientSecret cfg;
                 authServerUrl := authServerUrl cfg |} w H')
    as (field & value & Hin & Hv & Hnew).
  exists field, value. cbn in Hin. split; [in_list|]. split; [exact Hv|].
  run. rewrite Hnew. reflexivity.
Qed.

Lemma new_CMPWebhookHandler_empty (cfg : CMPWebhookConfig) (w : World) :
  clientId cfg = "" \/ clientSecret cfg = "" \/ authServerUrl cfg = ""
    \/ apiBaseUrl cfg = "" \/ previewUrl cfg = "" ->
  exists field value : string,
    (field, value) ∈ [("clientId", clientId cfg);
                      ("clientSecret", clientSecret cfg);
                      ("authServerUrl", authServerUrl cfg);
                      ("apiBaseUrl", apiBaseUrl cfg);
                      ("previewUrl", previewUrl cfg)] /\
    value = "" /\
    new_CMPWebhookHandler cfg w = (inl (ConfigurationError field), w).
Proof.
  intros H. unfold new_CMPWebhookHandler.
  destruct (String.eqb_spec (previewUrl cfg) "") as [E|N].
  { exists "previewUrl", (previewUrl cfg). repeat split; [in_list|exact E]. }
  assert (H' : clientId cfg = "" \/ clientSecret cfg = ""
               \/ authServerUrl cfg = "" \/ apiBaseUrl cfg = "") by tauto.
  destruct (new_CMPClient_empty
              {| oauthConfig :=
                   {| clientId := clientId cfg;
                      clientSecret := clientSecret cfg;
                      authServerUrl := authServerUrl cfg |};
                 apiBaseUrl := apiBaseUrl cfg |} w H')
    as (field & value & Hin & Hv & Hnew).
  exists field, value. cbn in Hin. split; [in_list|]. split; [exact Hv|].
  run. rewrite Hnew. reflexivity.
Qed.

(** C8.  Each of the three constructors, given an empty string in one of
    the fields it requires, throws the error naming an empty field and
    leaves the world as it was: nothing has been sent, the clock has not
    been read. *)
Theorem empty_required_field_fails_construction (w : World) :
  (forall cfg : CMPOAuthConfig,
     clientId cfg = "" \/ clientSecret cfg = "" \/ authServerUrl cfg = "" ->
     exists field : string,
       new_CMPOAuthClient cfg w = (inl (ConfigurationError field), w)) /\
  (forall cfg : CMPClientConfig,
     clientId cfg = "" \/ clientSecret cfg = "" \/ authServerUrl cfg = ""
       \/ apiBaseUrl cfg = "" ->
     exists field : string,
       new_CMPClient cfg w = (inl (ConfigurationError field), w)) /\
  (forall cfg : CMPWebhookConfig,
     clientId cfg = "" \/ clientSecret cfg = "" \/ authServerUrl cfg = ""
       \/ apiBaseUrl cfg = "" \/ previewUrl cfg = "" ->
     exists field : string,
       new_CMPWebhookHandler cfg w = (inl (ConfigurationError field), w)).
Proof.
  split; [|split]; intros cfg H.
  - destruct (new_CMPOAuthClient_empty cfg w H) as (f & _ & _ & _ & E); eauto.
  - destruct (new_CMPClient_empty cfg w H) as (f & _ & _ & _ & E); eauto.
  - destruct (new_CMPWebhookHandler_empty cfg w H) as (f & _ & _ & _ & E); eauto.
Qed.

(** ** Preview URLs *)

Section PreviewUrls.
Context (this : CMPWebhookHandler) (contentId : string).

Lemma generatePreviewUrls_loop_foldl (types : list string) (acc : KeyedPreviews) :
  "__proto__" ∉ types ->
  generatePreviewUrls_loop this types contentId acc
  = foldl (fun acc type => <[type := preview_url this type contentId]> acc)
      acc types.
Proof.
  revert acc. induction types as [|type rest IH]; intros acc Hplain; cbn.
  - reflexivity.
  - apply not_elem_of_cons in Hplain as [Hne Hrest].
    unfold set_property.
    destruct (String.eqb_spec type "__proto__") as [->|_]; [congruence|].
    apply IH, Hrest.
Qed.

Lemma generatePreviewUrls_loop_lookup (types : list string)
    (acc : KeyedPreviews) (type : string) :
  generatePreviewUrls_loop this types contentId acc !! type
  = if decide (type ∈ types)
    then (if decide (type = "__proto__") then acc !! type
          else Some (preview_url this type contentId))
    else acc !! type.
Proof.
  revert acc. induction types as [|t rest IH]; intros acc; cbn.
  - rewrite decide_False by apply not_elem_of_nil. reflexivity.
  - rewrite IH. unfold set_property.
    destruct (decide (type ∈ rest)) as [Hin|Hnotin].
    + rewrite (decide_True (P := type ∈ t :: rest))
        by (apply elem_of_cons; auto).
      destruct (decide (type = "__proto__")) as [->|Hplain]; [|reflexivity].
      destruct (String.eqb_spec t "__proto__") as [->|Hne]; [reflexivity|].
      rewrite lookup_insert_ne by exact Hne. reflexivity.
    + destruct (decide (t = type)) as [->|Hne].
      * rewrite (decide_True (P := type ∈ type :: rest))
          by (apply elem_of_cons; auto).
        destruct (decide (type = "__proto__")) as [->|Hplain].
        -- rewrite String.eqb_refl. reflexivity.
        -- destruct (String.eqb_spec type "__proto__") as [E|_];
             [congruence|].
           rewrite lookup_insert_eq. reflexivity.
      * rewrite (decide_False (P := type ∈ t :: rest))
          by (rewrite elem_of_cons; intros [E|E]; [congruence|tauto]).
        destruct (String.eqb_spec t "__proto__") as [_|_]; [reflexivity|].
        rewrite lookup_insert_ne by exact Hne. reflexivity.
Qed.

Lemma generatePreviewUrls_lookup (type : string) :
  generatePreviewUrls this contentId !! type
  = if decide (type ∈ this_previewTypes this)
    then (if decide (type = "__proto__") then None
          else Some (preview_url this type contentId))
    else None.
Proof.
  unfold generatePreviewUrls. rewrite generatePreviewUrls_loop_lookup.
  rewrite lookup_empty. reflexivity.
Qed.

Lemma generatePreviewUrls_lookup_plain (type : string) :
  "__proto__" ∉ this_previewTypes this ->
  generatePreviewUrls this contentId !! type
  = if decide (type ∈ this_previewTypes this)
    then Some (preview_url this type contentId) else None.
Proof.
  intros Hplain. rewrite generatePreviewUrls_lookup.
  destruct (decide (type ∈ this_previewTypes this)) as [Hin|_];
    [|reflexivity].
  destruct (decide (type = "__proto__")) as [->|_]; [tauto|reflexivity].
Qed.

Lemma generatePreviewUrls_dom_subseteq :
  dom (generatePreviewUrls this contentId)
  ⊆ list_to_set (this_previewTypes this).
Proof.
  intros type. rewrite elem_of_dom, generatePreviewUrls_lookup,
    elem_of_list_to_set.
  destruct (decide (type ∈ this_previewTypes this)) as [Hin|_]; [auto|].
  intros [? ?]; discriminate.
Qed.

Lemma generatePreviewUrls_dom :
  "__proto__" ∉ this_previewTypes this ->
  dom (generatePreviewUrls this contentId)
  = list_to_set (this_previewTypes this).
Proof.
  intros Hplain. apply set_eq. intros type.
  rewrite elem_of_dom, (generatePreviewUrls_lookup_plain _ Hplain),
    elem_of_list_to_set.
  destruct (decide (type ∈ this_previewTypes this)) as [Hin|Hnotin].
  - split; [auto|eauto].
  - split; [intros [? ?]; discriminate|tauto].
Qed.

End PreviewUrls.

Lemma new_CMPWebhookHandler_previewTypes (cfg : CMPWebhookConfig)
    (w w' : World) (this : CMPWebhookHandler) :
  new_CMPWebhookHandler cfg w = (inr this, w') ->
  config this = cfg /\
  this_previewTypes this
  = match previewTypes cfg with
    | Some types => types
    | None => default_previewTypes
    end.
Proof.
  unfold new_CMPWebhookHandler, new_CMPClient, new_CMPOAuthClient. cbn.
  destruct (String.eqb (previewUrl cfg) ""); [discriminate|].
  run.
  destruct (String.eqb (apiBaseUrl cfg) ""); [discriminate|].
  destruct (String.eqb (clientId cfg) ""); [discriminate|].
  destruct (String.eqb (clientSecret cfg) ""); [discriminate|].
  destruct (String.eqb (authServerUrl cfg) ""); [discriminate|].
  cbn. intros H. injection H as <- _. split; reflexivity.
Qed.

(** C6.  For configured types that are ordinary property names, that is,
    all but [__proto__] (assigning to that name creates no entry),
    [generatePreviewUrls] returns the mapping of the specification's fold;
    a type is a key exactly when it is configured, and its value is
    [{previewUrl}/preview/{type}/{contentId}].  A handler constructed
    without [previewTypes] yields the five entries [default], [mobile],
    [desktop], [tablet], [signage]. *)
Theorem generatePreviewUrls_correct (this : CMPWebhookHandler)
    (contentId : string) :
  ("__proto__" ∉ this_previewTypes this ->
   generatePreviewUrls this contentId
   = spec_generatePreviewUrls (previewUrl (config this))
       (this_previewTypes this) contentId
   /\ (forall type : string,
         generatePreviewUrls this contentId !! type
         = if decide (type ∈ this_previewTypes this)
           then Some (previewUrl (config this) +:+ "/preview/" +:+ type
                        +:+ "/" +:+ contentId)
           else None))
  /\ (forall (cfg : CMPWebhookConfig) (w w' : World),
        new_CMPWebhookHandler cfg w = (inr this, w') ->
        previewTypes cfg = None ->
        size (generatePreviewUrls this contentId) = 5%nat /\
        dom (generatePreviewUrls this contentId)
        = {[ "default"; "mobile"; "desktop"; "tablet"; "signage" ]}).
Proof.
  split.
  - intros Hplain. split.
    + apply generatePreviewUrls_loop_foldl, Hplain.
    + intros type. apply generatePreviewUrls_lookup_plain, Hplain.
  - intros cfg w w' Hnew Hnone.
    destruct (new_CMPWebhookHandler_previewTypes _ _ _ _ Hnew) as [_ Htypes].
    rewrite Hnone in Htypes.
    assert (Hplain : "__proto__" ∉ this_previewTypes this)
      by (rewrite Htypes; compute_done).
    rewrite <- size_dom, (generatePreviewUrls_dom _ _ Hplain), Htypes.
    split; [|set_solver].
    apply size_list_to_set. unfold default_previewTypes.
    repeat (apply NoDup_cons; split; [compute_done|]). apply NoDup_nil_2.
Qed.

(** ** The webhook handler *)

Section Handler.
Context (env : Env) (this : CMPWebhookHandler).

Lemma handleWebhook_try_decoded (payload parsed : JSValue) (w : World) :
  payload_decodes_to env payload parsed ->
  handleWebhook_try env this payload w = process env this parsed w.
Proof.
  unfold payload_decodes_to, handleWebhook_try.
  destruct (typeof_string payload) as [text|].
  - intros [Hne Hparse]. apply String.eqb_neq in Hne.
    rewrite Hne, Hparse. reflexivity.
  - intros ->. reflexivity.
Qed.

Lemma handleWebhook_catch_failure (e : Exn) (w : World) :
  exists message code,
    handleWebhook_catch e w = (inr (failure message code), w).
Proof. destruct e; cbn; eauto. Qed.

(** A result of the [try] block is a success record built at its end or
    one of the two early failures. *)
Lemma process_returns (parsed : JSValue) (w w' : World)
    (result : WebhookHandlerResult) :
  process env this parsed w = (inr result, w') ->
  exists request : PreviewRequest,
    parseWebhookPayload this parsed = inr request /\
    result =
      {| success := true;
         data := Some
           {| Data.contentId := contentId request;
              Data.versionId := versionId request;
              Data.previewId := previewId request;
              Data.keyedPreviews :=
                generatePreviewUrls this (to_string (contentId request)) |};
         error := None;
         status := 200 |}.
Proof.
  unfold process. run.
  destruct (parseWebhookPayload this parsed) as [e|request]; [discriminate|].
  destruct (acknowledgePreview env _ _ _ _ _ _ _) as [[e|[]] w1];
    [discriminate|].
  destruct (submitPreviewCompletion env _ _ _ _ _ _) as [[e|[]] w2];
    [discriminate|].
  intros H. injection H as <- _. eauto.
Qed.

Lemma handleWebhook_try_returns (payload : JSValue) (w w' : World)
    (result : WebhookHandlerResult) :
  handleWebhook_try env this payload w = (inr result, w') ->
  success result = false /\ data result = None /\ is_Some (error result)
  \/ exists parsed, process env this parsed w = (inr result, w').
Proof.
  unfold handleWebhook_try.
  destruct (typeof_string payload) as [text|]; [|eauto].
  destruct (String.eqb text "").
  { intros H. injection H as <- _. left. cbn. eauto. }
  destruct (JSON_parse env text) as [e|parsed]; [|eauto].
  intros H. injection H as <- _. left. cbn. eauto.
Qed.

(** C1, as the code has it.  [handleWebhook] always returns a result,
    never an exception, whatever the payload, the network, the clock and
    the parser do.  The result is a success or a failure record with a
    message; an exception [e] leaving the [try] block is reported with
    status 500 and its message when it is an [Error] other than a
    [CMPError], with status 500 and the fixed text [Unknown error] when it
    is no [Error] at all, and with its own message and status code (500
    for none) when it is a [CMPError]. *)
Theorem handleWebhook_never_throws (payload : JSValue) (w : World) :
  exists (result : WebhookHandlerResult) (w' : World),
    handleWebhook env this payload w = (inr result, w') /\
    (success result = true /\ is_Some (data result) /\ status result = 200
     \/ success result = false /\ data result = None
         /\ is_Some (error result)) /\
    forall e : Exn,
      fst (handleWebhook_try env this payload w) = inl e ->
      match e with
      | JSError _ message => result = failure message 500
      | Thrown _ => result = failure "Unknown error" 500
      | CMPError message statusCode _ =>
          result = failure message (statusCode_or_500 statusCode)
      end.
Proof.
  unfold handleWebhook, try_catch.
  destruct (handleWebhook_try env this payload w) as [[e|result] w'] eqn:Htry.
  - destruct e as [message statusCode details|name message|v]; cbn;
      eexists; eexists; (split; [reflexivity|]);
      (split; [right; cbn; eauto|]);
      intros e' He'; injection He' as <-; reflexivity.
  - exists result, w'. split; [reflexivity|]. split; [|discriminate].
    destruct (handleWebhook_try_returns _ _ _ _ Htry) as [Hfail|[parsed Hp]].
    + right. exact Hfail.
    + destruct (process_returns _ _ _ _ Hp) as (request & _ & ->).
      left. cbn. eauto.
Qed.

(** C7.  The empty text is answered with [Empty payload], a non-empty
    text that [JSON.parse] refuses with [Invalid JSON payload], both with
    status 400 and without touching network, clock or cache. *)
Theorem handleWebhook_rejects_bad_text (w : World) :
  handleWebhook env this (JStr "") w
    = (inr {| success := false; data := None;
              error := Some "Empty payload"; status := 400 |}, w)
  /\
  forall (text : string) (e : Exn),
    text <> "" ->
    JSON_parse env text = inl e ->
    handleWebhook env this (JStr text) w
      = (inr {| success := false; data := None;
                error := Some "Invalid JSON payload"; status := 400 |}, w).
Proof.
  split.
  - reflexivity.
  - intros text e Hne Hparse.
    unfold handleWebhook, try_catch, handleWebhook_try. cbn.
    apply String.eqb_neq in Hne. rewrite Hne, Hparse. reflexivity.
Qed.

Lemma getAccessToken_fetched (oauth : CMPOAuthClient) (w : World) :
  let w1 := snd (getAccessToken env oauth w) in
  fetched w1 = fetched w \/ fetched w1 = fetched w ++ [token_request oauth].
Proof.
  cbn zeta. unfold getAccessToken, cache_is_valid. run.
  destruct (tokenCache w) as [c|]; run.
  - destruct (clock env (ticks w) <? expiresAt c).
    + left. reflexivity.
    + right. rewrite fetch_new_token_fetched. reflexivity.
  - right. rewrite fetch_new_token_fetched. reflexivity.
Qed.

Lemma getAccessToken_throws (oauth : CMPOAuthClient) (w w1 : World) (e : Exn) :
  getAccessToken env oauth w = (inl e, w1) ->
  fetched w1 = fetched w ++ [token_request oauth].
Proof.
  unfold getAccessToken, cache_is_valid. run.
  destruct (tokenCache w) as [c|]; run.
  - destruct (clock env (ticks w) <? expiresAt c); [discriminate|].
    intros H.
    pose proof (fetch_new_token_fetched env oauth (after_tick w)) as Hlog.
    rewrite H in Hlog. exact Hlog.
  - intros H.
    pose proof (fetch_new_token_fetched env oauth w) as Hlog.
    rewrite H in Hlog. exact Hlog.
Qed.

(** Whoever calls [submitPreviewCompletion] sends a request: the completion
    request, or at least the token request that comes before it. *)
Lemma submitPreviewCompletion_sends (contentId versionId previewId : JSValue)
    (keyedPreviews : KeyedPreviews) (w : World) :
  (length (fetched w)
   < length (fetched (snd (submitPreviewCompletion env (client this)
                             contentId versionId previewId keyedPreviews w))))%nat.
Proof.
  unfold submitPreviewCompletion. run.
  pose proof (getAccessToken_fetched (oauthClient (client this)) w) as Hlog.
  cbn zeta in Hlog.
  destruct (getAccessToken env (oauthClient (client this)) w)
    as [[e|token] w1] eqn:Htoken.
  - cbn. rewrite (getAccessToken_throws _ _ _ _ Htoken), length_app. cbn. lia.
  - cbn in *.
    assert (Hle : (length (fetched w) <= length (fetched w1))%nat).
    { destruct Hlog as [->| ->]; [lia|]. rewrite length_app. lia. }
    destruct (network env _ _) as [e|response]; cbn.
    + rewrite length_app. cbn. lia.
    + destruct (Response.ok response); cbn.
      * rewrite length_app. cbn. lia.
      * destruct (Response.text response); cbn; rewrite length_app; cbn; lia.
Qed.

(** C4.  For a payload whose fields are all there, its three ids strings
    or other printable primitives, once a token is at
    hand and the acknowledge endpoint answers with a non-success status
    (and a readable body), [handleWebhook] returns the failure
    [Failed to acknowledge preview] with that status, and the run ends
    right after the acknowledge request: the requests of the run are the
    token request, if one was due, and the acknowledge request.  No
    completion request has been sent, and [submitPreviewCompletion], which
    never returns without having sent a request
    ([submitPreviewCompletion_sends]), has not been called. *)
Theorem acknowledge_failure_stops_workflow (payload parsed : JSValue)
    (request : PreviewRequest) (w w1 : World) (token : string)
    (response : Response.t) (errorText : string) :
  payload_decodes_to env payload parsed ->
  parseWebhookPayload this parsed = inr request ->
  printable_ids request = true ->
  getAccessToken env (oauthClient (client this)) w = (inr token, w1) ->
  let acknowledge :=
    acknowledge_request (client this) (contentId request)
      (versionId request) (previewId request) (updatedBy request)
      (contentHash request) token in
  network env (length (fetched w1)) acknowledge = inr response ->
  Response.ok response = false ->
  Response.status response <> 0 ->
  Response.text response = inr errorText ->
  handleWebhook env this payload w
    = (inr {| success := false; data := None;
              error := Some "Failed to acknowledge preview";
              status := Response.status response |},
       after_request acknowledge w1)
  /\ exists sent : list Request,
       fetched (after_request acknowledge w1) = fetched w ++ sent /\
       (sent = [acknowledge]
        \/ sent = [token_request (oauthClient (client this)); acknowledge]) /\
       Forall (fun r => forall keyedPreviews,
                 body r <> JsonComplete keyedPreviews) sent.
Proof.
  intros Hdecode Hparse _ Htoken acknowledge Hnet Hok Hstatus Htext.
  split.
  - unfold handleWebhook, try_catch.
    rewrite (handleWebhook_try_decoded _ _ _ Hdecode).
    unfold process, acknowledgePreview. run.
    rewrite Hparse, Htoken. fold acknowledge. rewrite Hnet, Hok. cbn.
    rewrite Htext. cbn. unfold failure, statusCode_or_500.
    apply Z.eqb_neq in Hstatus. rewrite Hstatus. reflexivity.
  - pose proof (getAccessToken_fetched (oauthClient (client this)) w) as Hlog.
    rewrite Htoken in Hlog. cbn in Hlog.
    destruct Hlog as [Hlog|Hlog].
    + exists [acknowledge]. cbn. rewrite Hlog.
      split; [reflexivity|]. split; [auto|].
      repeat constructor. discriminate.
    + exists [token_request (oauthClient (client this)); acknowledge]. cbn.
      rewrite Hlog, <- app_assoc.
      split; [reflexivity|]. split; [auto|].
      repeat constructor; discriminate.
Qed.

Lemma handleWebhook_success_inv (payload : JSValue) (w w' : World)
    (result : WebhookHandlerResult) :
  handleWebhook env this payload w = (inr result, w') ->
  success result = true ->
  exists (request : PreviewRequest) (d : Data.t),
    data result = Some d /\
    Data.contentId d = contentId request /\
    Data.keyedPreviews d
    = generatePreviewUrls this (to_string (contentId request)).
Proof.
  unfold handleWebhook, try_catch.
  destruct (handleWebhook_try env this payload w) as [[e|r] w1] eqn:Htry.
  - destruct (handleWebhook_catch_failure e w1) as (m & code & ->).
    intros H. injection H as <- _. discriminate.
  - intros H. injection H as <- <-.
    destruct (handleWebhook_try_returns _ _ _ _ Htry)
      as [(Hfalse & _)|[parsed Hp]].
    + rewrite Hfalse. discriminate.
    + destruct (process_returns _ _ _ _ Hp) as (request & _ & ->).
      intros _. eexists request, _. cbn. eauto.
Qed.

(** C5, as the code has it.  From a payload other than [null] and
    [undefined] (on which reading [payload.data] throws a [TypeError]) the
    five values are always extracted.  When one of them is falsy, and all
    five are primitives that a template literal prints,
    [parseWebhookPayload] throws a [CMPError] with status code 400, the
    fixed message [Missing required fields in webhook payload], and details
    that echo all five values, a missing one printing as [undefined]. *)
Theorem parseWebhookPayload_missing_fields (payload : JSValue) :
  (nullish payload = true ->
   exists message : string,
     parseWebhookPayload this payload = inl (JSError "TypeError" message))
  /\
  (nullish payload = false ->
   exists contentId versionId previewId updatedBy contentHash : JSValue,
     extract_fields payload
       = inr (contentId, versionId, previewId, updatedBy, contentHash) /\
     (falsy contentId || falsy versionId || falsy previewId
        || falsy updatedBy || falsy contentHash = true ->
      scalar contentId && scalar versionId && scalar previewId
        && scalar updatedBy && scalar contentHash = true ->
      parseWebhookPayload this payload
      = inl (CMPError "Missing required fields in webhook payload"
               (Some 400)
               (Some ("contentId=" +:+ to_string contentId
                      +:+ ", versionId=" +:+ to_string versionId
                      +:+ ", previewId=" +:+ to_string previewId
                      +:+ ", updatedBy=" +:+ to_string updatedBy
                      +:+ ", contentHash=" +:+ to_string contentHash))))).
Proof.
  split; intros Hpayload.
  - destruct payload; try discriminate; cbn; eauto.
  - assert (Hextract : exists c v p u h : JSValue,
              extract_fields payload = inr (c, v, p, u, h))
      by (destruct payload; try discriminate; cbn; eauto 10).
    destruct Hextract as (c & v & p & u & h & Hextract).
    exists c, v, p, u, h. split; [exact Hextract|].
    intros Hfalsy _. unfold parseWebhookPayload.
    rewrite Hextract, Hfalsy. reflexivity.
Qed.

(** C10.  A payload that is not a string goes to the field extraction as
    it is: neither the empty-text check nor [JSON.parse] plays a part, so
    the outcome is the same under any parser.  For [null] the extraction
    throws a [TypeError], which is reported with status 500, not 400. *)
Theorem non_string_payload_skips_text_checks (w : World) :
  (forall payload : JSValue,
     typeof_string payload = None ->
     handleWebhook env this payload w
       = try_catch (process env this payload) handleWebhook_catch w /\
     forall parser : string -> Result JSValue,
       handleWebhook
         {| network := network env; clock := clock env;
            JSON_parse := parser |} this payload w
       = handleWebhook env this payload w)
  /\
  handleWebhook env this JNull w
    = (inr {| success := false; data := None;
              error := Some "Cannot read properties of null (reading 'data')";
              status := 500 |}, w).
Proof.
  split; [|reflexivity].
  intros payload Hobject. unfold handleWebhook, handleWebhook_try.
  rewrite Hobject. split; reflexivity.
Qed.

End Handler.

(** C9.  The handler keeps the list of preview types it is given, the empty
    list included; the five defaults stand in only when the configuration has
    none.  With the empty list [generatePreviewUrls] returns the empty
    mapping for every content id, and every successful [handleWebhook]
    result carries a [keyedPreviews] without entries. *)
Theorem explicit_previewTypes_respected (cfg : CMPWebhookConfig)
    (w w' : World) (this : CMPWebhookHandler) :
  new_CMPWebhookHandler cfg w = (inr this, w') ->
  (forall types : list string,
     previewTypes cfg = Some types -> this_previewTypes this = types) /\
  (previewTypes cfg = None -> this_previewTypes this = default_previewTypes) /\
  (previewTypes cfg = Some [] ->
     (forall contentId : string, generatePreviewUrls this contentId = ∅) /\
     (forall (env : Env) (payload : JSValue) (v v' : World)
             (result : WebhookHandlerResult),
        handleWebhook env this payload v = (inr result, v') ->
        success result = true ->
        exists d : Data.t,
          data result = Some d /\ Data.keyedPreviews d = ∅
          /\ size (Data.keyedPreviews d) = 0%nat)).
Proof.
  intros Hnew.
  destruct (new_CMPWebhookHandler_previewTypes _ _ _ _ Hnew) as [_ Htypes].
  split; [|split].
  - intros types Hsome. rewrite Htypes, Hsome. reflexivity.
  - intros Hnone. rewrite Htypes, Hnone. reflexivity.
  - intros Hempty. rewrite Hempty in Htypes.
    assert (Hgen : forall contentId : string,
              generatePreviewUrls this contentId = ∅).
    { intros contentId. unfold generatePreviewUrls. rewrite Htypes.
      reflexivity. }
    split; [exact Hgen|].
    intros env payload v v' result Hrun Hsuccess.
    destruct (handleWebhook_success_inv _ _ _ _ _ _ Hrun Hsuccess)
      as (request & d & Hdata & _ & Hkeyed).
    exists d. rewrite Hkeyed, Hgen. split; [exact Hdata|].
    split; [reflexivity|]. apply map_size_empty.
Qed.

(** * Concrete runs *)

Lemma token_expiry_arithmetic_witness :
  exists w1 : World,
    getAccessToken Sample.env_ok Sample.oauth Sample.initial_world
      = (inr "tok", w1) /\
    tokenCache w1 = Some {| accessToken := "tok"; expiresAt := 3301000 |} /\
    fst (hasCachedToken Sample.env_ok Sample.oauth w1) = inr true /\
    fst (hasCachedToken Sample.env_ok Sample.oauth (after_tick w1)) = inr false.
Proof.
  destruct (token_expiry_arithmetic Sample.env_ok Sample.oauth
              Sample.initial_world Sample.initial_world
              (Sample.token_response "tok" 3600)
              {| access_token := Some "tok"; expires_in := Some 3600;
                 token_type := Some "Bearer" |}
              "tok" 3600
              eq_refl eq_refl eq_refl eq_refl eq_refl
              ltac:(discriminate) eq_refl ltac:(lia)
              eq_refl eq_refl eq_refl eq_refl eq_refl)
    as (w1 & Hrun & Hcache & _ & Hbounds).
  exists w1. split; [exact Hrun|]. split; [exact Hcache|].
  assert (Hw1 : ticks w1 = 1%nat).
  { vm_compute in Hrun. injection Hrun as <-. reflexivity. }
  split.
  - apply (Hbounds eq_refl w1 eq_refl); rewrite Hw1; reflexivity.
  - apply (Hbounds eq_refl (after_tick w1) eq_refl); cbn; rewrite Hw1;
      reflexivity.
Defined.

Lemma token_caching_witness :
  exists w2 : World,
    getAccessToken Sample.env_ok Sample.oauth
      (snd (getAccessToken Sample.env_ok Sample.oauth Sample.initial_world))
      = (inr "tok", w2) /\
    fetched w2 = [token_request Sample.oauth].
Proof.
  destruct (proj1 (token_caching Sample.env_ok Sample.oauth
                     Sample.initial_world Sample.initial_world
                     (snd (getAccessToken Sample.env_ok Sample.oauth
                             Sample.initial_world))
                     "tok")
              eq_refl eq_refl eq_refl)
    as (w2 & Hsecond & _ & Hlog).
  exists w2. split; [exact Hsecond|exact Hlog].
Defined.

Lemma handleWebhook_never_throws_witness :
  exists w' : World,
    handleWebhook Sample.env_boom Sample.handler Sample.payload
      Sample.initial_world
    = (inr {| success := false; data := None;
              error := Some "Unknown error"; status := 500 |}, w').
Proof.
  destruct (handleWebhook_never_throws Sample.env_boom Sample.handler
              Sample.payload Sample.initial_world)
    as (result & w' & Hrun & _ & Hreported).
  exists w'. rewrite Hrun.
  rewrite (Hreported (Thrown (JStr "boom")) eq_refl). reflexivity.
Defined.

(** C1 as stated fails here: the thrown object carries the message [boom]
    and prints as [[object Object]]; the result reports neither, but the
    fixed text. *)
Lemma thrown_object_reported_as_unknown_error :
  get_opt Sample.thrown_object "message" = JStr "boom" /\
  to_string Sample.thrown_object = "[object Object]" /\
  handleWebhook Sample.env_thrown_object Sample.handler Sample.payload
    Sample.initial_world
  = (inr {| success := false; data := None;
            error := Some "Unknown error"; status := 500 |},
     after_request (token_request Sample.oauth) Sample.initial_world).
Proof. repeat split. Qed.

Lemma acknowledge_failure_stops_workflow_witness :
  handleWebhook Sample.env_forbidden Sample.handler
    (JStr Sample.payload_text) Sample.initial_world
  = (inr {| success := false; data := None;
            error := Some "Failed to acknowledge preview"; status := 403 |},
     {| tokenCache := Some {| accessToken := "tok"; expiresAt := 3301000 |};
        ticks := 1;
        fetched :=
          [token_request Sample.oauth;
           acknowledge_request Sample.api_client (JStr "c1") (JStr "v1")
             (JStr "p1") (JStr "u1") (JStr "h1") "tok"] |}).
Proof.
  refine (proj1 (acknowledge_failure_stops_workflow
                   Sample.env_forbidden Sample.handler
                   (JStr Sample.payload_text)
                   (match Sample.parse Sample.payload_text with
                    | inr parsed => parsed
                    | inl _ => JUndefined
                    end)
                   Sample.request
                   Sample.initial_world
                   (snd (getAccessToken Sample.env_forbidden Sample.oauth
                           Sample.initial_world))
                   "tok"
                   (Sample.api_response 403 "forbidden")
                   "forbidden"
                   (conj _ eq_refl) eq_refl eq_refl eq_refl eq_refl eq_refl _
                   eq_refl)).
  - vm_compute. discriminate.
  - vm_compute. discriminate.
Defined.

Lemma parseWebhookPayload_missing_fields_witness :
  parseWebhookPayload Sample.handler (Sample.payload_with [])
  = inl (CMPError "Missing required fields in webhook payload" (Some 400)
           (Some "contentId=c1, versionId=v1, previewId=p1, updatedBy=u1, contentHash=undefined")).
Proof.
  destruct (proj2 (parseWebhookPayload_missing_fields Sample.handler
                     (Sample.payload_with [])) eq_refl)
    as (c & v & p & u & h & Hextract & Hthrow).
  injection Hextract as <- <- <- <- <-.
  exact (Hthrow eq_refl eq_refl).
Defined.

(** C5 as stated fails here: the message of the error is the same text
    whether only the content hash is missing or every field is; it names no
    field and echoes no value (not [c1], not [undefined]).  The values are
    in the details, and [handleWebhook] hands on the message alone. *)
Lemma missing_fields_message_is_fixed :
  parseWebhookPayload Sample.handler (Sample.payload_with [])
  = inl (CMPError "Missing required fields in webhook payload" (Some 400)
           (Some "contentId=c1, versionId=v1, previewId=p1, updatedBy=u1, contentHash=undefined"))
  /\
  parseWebhookPayload Sample.handler (JObj [])
  = inl (CMPError "Missing required fields in webhook payload" (Some 400)
           (Some "contentId=undefined, versionId=undefined, previewId=undefined, updatedBy=undefined, contentHash=undefined"))
  /\
  Sample.occurs "contentHash" "Missing required fields in webhook payload"
  = false /\
  Sample.occurs "c1" "Missing required fields in webhook payload" = false /\
  Sample.occurs "undefined" "Missing required fields in webhook payload"
  = false /\
  fst (handleWebhook Sample.env_down Sample.handler (Sample.payload_with [])
         Sample.initial_world)
  = inr {| success := false; data := None;
           error := Some "Missing required fields in webhook payload";
           status := 400 |}.
Proof. repeat split. Qed.

Lemma generatePreviewUrls_correct_witness :
  size (generatePreviewUrls Sample.handler "abc123") = 5%nat /\
  generatePreviewUrls Sample.handler "abc123" !! "mobile"
    = Some "https://preview.example.com/preview/mobile/abc123".
Proof.
  destruct (generatePreviewUrls_correct Sample.handler "abc123")
    as (Hplain & Hdefault).
  split.
  - exact (proj1 (Hdefault (config Sample.handler) Sample.initial_world
                    Sample.initial_world eq_refl eq_refl)).
  - destruct (Hplain ltac:(compute_done)) as [_ Hlookup].
    rewrite Hlookup. reflexivity.
Defined.

Lemma handleWebhook_rejects_bad_text_witness :
  handleWebhook Sample.env_down Sample.handler (JStr "not json")
    Sample.initial_world
  = (inr {| success := false; data := None;
            error := Some "Invalid JSON payload"; status := 400 |},
     Sample.initial_world).
Proof.
  exact (proj2 (handleWebhook_rejects_bad_text Sample.env_down Sample.handler
                  Sample.initial_world)
           "not json" (JSError "SyntaxError" "Unexpected token in JSON")
           ltac:(discriminate) eq_refl).
Defined.

Lemma empty_required_field_fails_construction_witness :
  exists field : string,
    new_CMPWebhookHandler Sample.config_without_secret Sample.initial_world
    = (inl (ConfigurationError field), Sample.initial_world).
Proof.
  exact (proj2 (proj2 (empty_required_field_fails_construction
                         Sample.initial_world))
           Sample.config_without_secret (or_intror (or_introl eq_refl))).
Defined.

Lemma explicit_previewTypes_respected_witness :
  exists d : Data.t,
    data {| success := true;
            data := Some {| Data.contentId := JStr "c1";
                            Data.versionId := JStr "v1";
                            Data.previewId := JStr "p1";
                            Data.keyedPreviews := ∅ |};
            error := None; status := 200 |} = Some d /\
    Data.keyedPreviews d = ∅ /\ size (Data.keyedPreviews d) = 0%nat.
Proof.
  refine (proj2 (proj2 (proj2 (explicit_previewTypes_respected
                          (config (Sample.handler_with (Some [])))
                          Sample.initial_world Sample.initial_world
                          (Sample.handler_with (Some []))
                          eq_refl))
                   eq_refl)
            Sample.env_ok Sample.payload Sample.initial_world
            (snd (handleWebhook Sample.env_ok (Sample.handler_with (Some []))
                    Sample.payload Sample.initial_world))
            _ eq_refl eq_refl).
Defined.

Lemma non_string_payload_skips_text_checks_witness :
  handleWebhook Sample.env_down Sample.handler (JObj []) Sample.initial_world
  = try_catch (process Sample.env_down Sample.handler (JObj []))
      handleWebhook_catch Sample.initial_world.
Proof.
  exact (proj1 (proj1 (non_string_payload_skips_text_checks Sample.env_down
                         Sample.handler Sample.initial_world)
                  (JObj []) eq_refl)).
Defined.

(** ** Further runs of the whole workflow *)

(** Token, acknowledge and complete all succeed: the result is a success
    with the five default previews, and three requests went out. *)
Example end_to_end_success :
  exists (d : Data.t) (w' : World),
    handleWebhook Sample.env_ok Sample.handler (JStr Sample.payload_text)
      Sample.initial_world
    = (inr {| success := true; data := Some d; error := None; status := 200 |},
       w') /\
    Data.contentId d = JStr "c1" /\
    Data.versionId d = JStr "v1" /\
    Data.previewId d = JStr "p1" /\
    Data.keyedPreviews d = generatePreviewUrls Sample.handler "c1" /\
    size (Data.keyedPreviews d) = 5%nat /\
    url <$> fetched w'
    = ["https://auth.example.com/o/oauth2/v1/token";
       "https://api.example.com/structured-content/contents/c1/versions/v1/previews/p1/acknowledge";
       "https://api.example.com/structured-content/contents/c1/versions/v1/previews/p1/complete"].
Proof.
  eexists _, _. split; [vm_compute; reflexivity|].
  repeat split; vm_compute; reflexivity.
Qed.

(** Without a network the transport error of the token request is what the
    caller is told, with status 500. *)
Example transport_failure_reported :
  handleWebhook Sample.env_down Sample.handler Sample.payload
    Sample.initial_world
  = (inr {| success := false; data := None;
            error := Some "fetch failed"; status := 500 |},
     after_request (token_request Sample.oauth) Sample.initial_world).
Proof. reflexivity. Qed.

(** A token endpoint that declares a lifetime of 300 seconds or less: the
    token is cached already expired, and the next call fetches again. *)
Example short_lifetime_refetches :
  let env :=
    Sample.env [inr (Sample.token_response "t1" 300);
                inr (Sample.token_response "t2" 300)]
               (Sample.readings 1000 [1000; 1000]) in
  let w1 := snd (getAccessToken env Sample.oauth Sample.initial_world) in
  tokenCache w1 = Some {| accessToken := "t1"; expiresAt := 1000 |} /\
  fst (hasCachedToken env Sample.oauth w1) = inr false /\
  fst (getAccessToken env Sample.oauth w1) = inr "t2".
Proof. repeat split. Qed.

(** * Beyond the claims: the token cache *)

(** Is there a cached token that the next reading of the clock finds
    unexpired?  This is the test in the first line of [getAccessToken] and in
    [hasCachedToken]. *)
Definition cached_token_valid (env : Env) (w : World) : bool :=
  match tokenCache w with
  | Some c => clock env (ticks w) <? expiresAt c
  | None => false
  end.

(** The world after that test: the clock has been read if there was an
    entry to compare it with. *)
Definition after_cache_check (w : World) : World :=
  match tokenCache w with
  | Some _ => after_tick w
  | None => w
  end.

Section TokenCache.
Context (env : Env) (this : CMPOAuthClient).

Lemma cache_is_valid_eq (w : World) :
  cache_is_valid env (tokenCache w) w
  = (inr (cached_token_valid env w), after_cache_check w).
Proof.
  unfold cache_is_valid, cached_token_valid, after_cache_check. run.
  destruct (tokenCache w); reflexivity.
Qed.

Lemma getAccessToken_eq (w : World) :
  getAccessToken env this w
  = match tokenCache w with
    | Some c =>
        if clock env (ticks w) <? expiresAt c
        then (inr (accessToken c), after_tick w)
        else fetch_new_token env this (after_tick w)
    | None => fetch_new_token env this w
    end.
Proof.
  unfold getAccessToken, cache_is_valid. run.
  destruct (tokenCache w) as [c|]; run; [|reflexivity].
  destruct (clock env (ticks w) <? expiresAt c); reflexivity.
Qed.

Lemma fetch_new_token_failure (w w' : World) (e : Exn) :
  fetch_new_token env this w = (inl e, w') ->
  w' = after_request (token_request this) w.
Proof.
  unfold fetch_new_token. run.
  destruct (network env _ _) as [e0|response].
  { intros H. injection H as _ <-. reflexivity. }
  destruct (Response.ok response); cbn.
  - destruct (Response.json response) as [e0|data].
    { intros H. injection H as _ <-. reflexivity. }
    destruct (access_token data) as [tok|];
      [|intros H; injection H as _ <-; reflexivity].
    destruct (expires_in data) as [seconds|];
      [|intros H; injection H as _ <-; reflexivity].
    destruct (_ || _); [|discriminate].
    intros H. injection H as _ <-. reflexivity.
  - destruct (Response.text response); intros H; injection H as _ <-;
      reflexivity.
Qed.

Lemma app_singleton_neq {A : Type} (l : list A) (x : A) : l ++ [x] <> l.
Proof.
  intros H. apply (f_equal length) in H. rewrite length_app in H.
  cbn in H. lia.
Qed.

(** X1.  [getAccessToken] talks to the network exactly when the cache holds
    no token that is still unexpired: with a valid entry it sends nothing
    and returns the cached token, otherwise it sends the token request,
    once. *)
Theorem getAccessToken_sends_iff_no_valid_cache (w : World) :
  fetched (snd (getAccessToken env this w))
  = (if cached_token_valid env w then fetched w
     else fetched w ++ [token_request this])
  /\ (fetched (snd (getAccessToken env this w)) = fetched w
      <-> exists c : TokenCache,
            tokenCache w = Some c /\ clock env (ticks w) < expiresAt c
            /\ fst (getAccessToken env this w) = inr (accessToken c)).
Proof.
  rewrite getAccessToken_eq. unfold cached_token_valid.
  destruct (tokenCache w) as [c|].
  - destruct (clock env (ticks w) <? expiresAt c) eqn:Hlt.
    + split; [reflexivity|]. split; [|reflexivity].
      intros _. exists c. apply Z.ltb_lt in Hlt. auto.
    + rewrite fetch_new_token_fetched. cbn.
      split; [reflexivity|]. split.
      * intros H. destruct (app_singleton_neq _ _ H).
      * intros (c' & Hc' & Hlt' & _). injection Hc' as <-.
        apply Z.ltb_lt in Hlt'. congruence.
  - rewrite fetch_new_token_fetched.
    split; [reflexivity|]. split.
    + intros H. destruct (app_singleton_neq _ _ H).
    + intros (c' & Hc' & _). discriminate.
Qed.

(** X2.  Whenever [getAccessToken] returns a token, the cache holds that
    very token afterwards, whether it came from the cache or from the
    network. *)
Theorem getAccessToken_returns_cached_token (w w' : World) (token : string) :
  getAccessToken env this w = (inr token, w') ->
  exists c : TokenCache, tokenCache w' = Some c /\ accessToken c = token.
Proof.
  rewrite getAccessToken_eq.
  destruct (tokenCache w) as [c|] eqn:Hc.
  - destruct (clock env (ticks w) <? expiresAt c).
    + intros H. injection H as <- <-. exists c. auto.
    + intros H. destruct (fetch_new_token_inv _ _ _ _ _ H) as [expires ->].
      eexists. split; reflexivity.
  - intros H. destruct (fetch_new_token_inv _ _ _ _ _ H) as [expires ->].
    eexists. split; reflexivity.
Qed.

(** X3.  A failed [getAccessToken] leaves the cache exactly as it was (an
    expired entry is neither renewed nor dropped), and the token request is
    the one request it has sent. *)
Theorem getAccessToken_failure_keeps_cache (w w' : World) (e : Exn) :
  getAccessToken env this w = (inl e, w') ->
  tokenCache w' = tokenCache w /\
  fetched w' = fetched w ++ [token_request this].
Proof.
  rewrite getAccessToken_eq.
  destruct (tokenCache w) as [c|] eqn:Hc.
  - destruct (clock env (ticks w) <? expiresAt c); [discriminate|].
    intros H. rewrite (fetch_new_token_failure _ _ _ H). cbn. auto.
  - intros H. rewrite (fetch_new_token_failure _ _ _ H). cbn. auto.
Qed.

End TokenCache.

(** More environments for concrete runs. *)
Module Runs.

(** The token endpoint answers 401. *)
Definition env_unauthorized : Env :=
  Sample.env [inr (Sample.api_response 401 "bad credentials")]
    (Sample.readings 0 []).

(** The token endpoint answers 200 with a body that has no [expires_in]. *)
Definition response_without_lifetime : Response.t :=
  {| Response.ok := true;
     Response.status := 200;
     Response.text := inr "";
     Response.json := inr {| access_token := Some "tok";
                             expires_in := None;
                             token_type := Some "Bearer" |} |}.

Definition env_without_lifetime : Env :=
  Sample.env [inr response_without_lifetime] (Sample.readings 0 []).

(** The token endpoint declares a lifetime of 300 seconds, twice; the clock
    moves on by a second per reading. *)
Definition env_short_lifetime : Env :=
  Sample.env [inr (Sample.token_response "t1" 300);
              inr (Sample.token_response "t2" 300)]
    (Sample.readings 1000 [2000; 3000; 4000]).

(** A world with a cached token that expires at 5000 ms. *)
Definition world_with_token : World :=
  {| tokenCache := Some {| accessToken := "old"; expiresAt := 5000 |};
     ticks := 0; fetched := [] |}.

(** The clock is past the expiry and the network is down. *)
Definition env_expired_and_down : Env :=
  Sample.env [] (Sample.readings 5000 []).



Definition success_result : WebhookHandlerResult :=
  {| success := true;
     data := Some {| Data.contentId := JStr "c1";
                     Data.versionId := JStr "v1";
                     Data.previewId := JStr "p1";
                     Data.keyedPreviews :=
                       generatePreviewUrls Sample.handler "c1" |};
     error := None;
     status := 200 |}.

End Runs.

Section TokenFailures.
Context (env : Env) (this : CMPOAuthClient).

Lemma getAccessToken_no_valid_cache (w : World) :
  cached_token_valid env w = false ->
  getAccessToken env this w = fetch_new_token env this (after_cache_check w).
Proof.
  intros H. apply getAccessToken_miss. rewrite cache_is_valid_eq, H.
  reflexivity.
Qed.

Lemma after_cache_check_fetched (w : World) :
  fetched (after_cache_check w) = fetched w.
Proof. unfold after_cache_check. destruct (tokenCache w); reflexivity. Qed.

Lemma after_cache_check_tokenCache (w : World) :
  tokenCache (after_cache_check w) = tokenCache w.
Proof.
  unfold after_cache_check. destruct (tokenCache w) eqn:E; exact E.
Qed.

Lemma fetch_new_token_rejected (w : World) (response : Response.t)
    (errorText : string) :
  network env (length (fetched w)) (token_request this) = inr response ->
  Response.ok response = false ->
  Response.text response = inr errorText ->
  fetch_new_token env this w
  = (inl (CMPError "Failed to obtain access token"
            (Some (Response.status response)) (Some errorText)),
     after_request (token_request this) w).
Proof.
  intros Hnet Hok Htext. unfold fetch_new_token. run.
  rewrite Hnet, Hok. cbn. rewrite Htext. reflexivity.
Qed.

Lemma fetch_new_token_incomplete (w : World) (response : Response.t)
    (data : TokenResponse) :
  network env (length (fetched w)) (token_request this) = inr response ->
  Response.ok response = true ->
  Response.json response = inr data ->
  access_token data = None \/ access_token data = Some ""
    \/ expires_in data = None \/ expires_in data = Some 0 ->
  fetch_new_token env this w
  = (inl (CMPError
            "Invalid token response: missing access_token or expires_in"
            None None),
     after_request (token_request this) w).
Proof.
  intros Hnet Hok Hjson Hfields. unfold fetch_new_token. run.
  rewrite Hnet, Hok. cbn. rewrite Hjson.
  destruct (access_token data) as [token|] eqn:Htoken; [|reflexivity].
  destruct (expires_in data) as [seconds|] eqn:Hseconds; [|reflexivity].
  assert (Hfalsy : String.eqb token "" || Z.eqb seconds 0 = true).
  { destruct Hfields as [H|[H|[H|H]]]; try discriminate;
      injection H as ->; cbn; [reflexivity|apply orb_true_r]. }
  rewrite Hfalsy. reflexivity.
Qed.

(** X4.  When a token has to be fetched and the token endpoint answers with
    a non-success status, [getAccessToken] throws a [CMPError] with the
    message [Failed to obtain access token], the status of the response as
    status code and the text of the response as details. *)
Theorem token_endpoint_rejection (w : World) (response : Response.t)
    (errorText : string) :
  cached_token_valid env w = false ->
  network env (length (fetched w)) (token_request this) = inr response ->
  Response.ok response = false ->
  Response.text response = inr errorText ->
  getAccessToken env this w
  = (inl (CMPError "Failed to obtain access token"
            (Some (Response.status response)) (Some errorText)),
     after_request (token_request this) (after_cache_check w)).
Proof.
  intros Hmiss Hnet Hok Htext.
  rewrite (getAccessToken_no_valid_cache _ Hmiss).
  apply fetch_new_token_rejected; [|exact Hok|exact Htext].
  rewrite after_cache_check_fetched. exact Hnet.
Qed.

(** X5.  When the token endpoint answers with success but the body lacks
    [access_token] or [expires_in], or has an empty token or a lifetime of
    zero, [getAccessToken] throws a [CMPError] without status code or
    details, and nothing is cached. *)
Theorem token_response_incomplete (w : World) (response : Response.t)
    (data : TokenResponse) :
  cached_token_valid env w = false ->
  network env (length (fetched w)) (token_request this) = inr response ->
  Response.ok response = true ->
  Response.json response = inr data ->
  access_token data = None \/ access_token data = Some ""
    \/ expires_in data = None \/ expires_in data = Some 0 ->
  exists w' : World,
    getAccessToken env this w
    = (inl (CMPError
              "Invalid token response: missing access_token or expires_in"
              None None), w') /\
    tokenCache w' = tokenCache w.
Proof.
  intros Hmiss Hnet Hok Hjson Hfields.
  rewrite (getAccessToken_no_valid_cache _ Hmiss).
  rewrite <- after_cache_check_fetched in Hnet.
  rewrite (fetch_new_token_incomplete _ _ _ Hnet Hok Hjson Hfields).
  eexists. split; [reflexivity|]. apply after_cache_check_tokenCache.
Qed.

(** X6.  A token fetched with a declared lifetime of 300 seconds or less is
    cached with an expiry that is not after the time of the fetch: as long
    as the clock does not go back, [hasCachedToken] is false and the next
    [getAccessToken] sends the token request again. *)
Theorem short_lifetime_token_is_never_valid (w : World)
    (response : Response.t) (data : TokenResponse) (token : string)
    (seconds : Z) :
  cached_token_valid env w = false ->
  network env (length (fetched w)) (token_request this) = inr response ->
  Response.ok response = true ->
  Response.json response = inr data ->
  access_token data = Some token -> token <> "" ->
  expires_in data = Some seconds -> seconds <> 0 ->
  seconds <= 300 ->
  exists w1 : World,
    getAccessToken env this w = (inr token, w1) /\
    forall w2 : World,
      tokenCache w2 = tokenCache w1 ->
      clock env (ticks (after_cache_check w)) <= clock env (ticks w2) ->
      fst (hasCachedToken env this w2) = inr false /\
      fetched (snd (getAccessToken env this w2))
      = fetched w2 ++ [token_request this].
Proof.
  intros Hmiss Hnet Hok Hjson Htoken Hne Hseconds Hnz Hshort.
  rewrite (getAccessToken_no_valid_cache _ Hmiss).
  rewrite <- after_cache_check_fetched in Hnet.
  rewrite (fetch_new_token_success _ _ _ _ _ _ _ Hnet Hok Hjson Htoken Hne
             Hseconds Hnz).
  eexists. split; [reflexivity|].
  intros w2 Hcache Hclock. cbn in Hcache.
  assert (Hexpired : (clock env (ticks w2)
                      <? clock env (ticks (after_cache_check w))
                         + (seconds - 300) * 1000) = false)
    by (apply Z.ltb_ge; lia).
  split.
  - rewrite (hasCachedToken_spec _ _ _ _ Hcache). cbn. rewrite Hexpired.
    reflexivity.
  - rewrite getAccessToken_eq, Hcache. cbn. rewrite Hexpired.
    rewrite fetch_new_token_fetched. reflexivity.
Qed.

(** X7.  [hasCachedToken] only looks: it sends nothing and leaves the cache
    alone; and it answers true exactly when [getAccessToken], called in its
    place, would be served from the cache without a request. *)
Theorem hasCachedToken_agrees_with_getAccessToken (w : World) :
  exists (b : bool) (w' : World),
    hasCachedToken env this w = (inr b, w') /\
    tokenCache w' = tokenCache w /\
    fetched w' = fetched w /\
    (b = true <-> fetched (snd (getAccessToken env this w)) = fetched w).
Proof.
  unfold hasCachedToken. run. rewrite cache_is_valid_eq.
  eexists _, _. split; [reflexivity|].
  split; [apply after_cache_check_tokenCache|].
  split; [apply after_cache_check_fetched|].
  rewrite getAccessToken_eq. unfold cached_token_valid.
  destruct (tokenCache w) as [c|].
  - destruct (clock env (ticks w) <? expiresAt c).
    + split; reflexivity.
    + rewrite fetch_new_token_fetched. cbn. split; [discriminate|].
      intros H. destruct (app_singleton_neq _ _ H).
  - rewrite fetch_new_token_fetched. split; [discriminate|].
    intros H. destruct (app_singleton_neq _ _ H).
Qed.

End TokenFailures.

Lemma getAccessToken_returns_cached_token_witness :
  exists c : TokenCache,
    tokenCache (snd (getAccessToken Sample.env_ok Sample.oauth
                       Sample.initial_world)) = Some c /\
    accessToken c = "tok".
Proof.
  exact (getAccessToken_returns_cached_token Sample.env_ok Sample.oauth
           Sample.initial_world
           (snd (getAccessToken Sample.env_ok Sample.oauth
                   Sample.initial_world))
           "tok" eq_refl).
Defined.

Lemma getAccessToken_failure_keeps_cache_witness :
  tokenCache (snd (getAccessToken Runs.env_expired_and_down Sample.oauth
                     Runs.world_with_token))
  = Some {| accessToken := "old"; expiresAt := 5000 |} /\
  fetched (snd (getAccessToken Runs.env_expired_and_down Sample.oauth
                  Runs.world_with_token))
  = [token_request Sample.oauth].
Proof.
  exact (getAccessToken_failure_keeps_cache Runs.env_expired_and_down
           Sample.oauth Runs.world_with_token
           (snd (getAccessToken Runs.env_expired_and_down Sample.oauth
                   Runs.world_with_token))
           (JSError "TypeError" "fetch failed") eq_refl).
Defined.

Lemma token_endpoint_rejection_witness :
  getAccessToken Runs.env_unauthorized Sample.oauth Sample.initial_world
  = (inl (CMPError "Failed to obtain access token" (Some 401)
            (Some "bad credentials")),
     after_request (token_request Sample.oauth) Sample.initial_world).
Proof.
  exact (token_endpoint_rejection Runs.env_unauthorized Sample.oauth
           Sample.initial_world (Sample.api_response 401 "bad credentials")
           "bad credentials" eq_refl eq_refl eq_refl eq_refl).
Defined.

Lemma token_response_incomplete_witness :
  exists w' : World,
    getAccessToken Runs.env_without_lifetime Sample.oauth Sample.initial_world
    = (inl (CMPError
              "Invalid token response: missing access_token or expires_in"
              None None), w') /\
    tokenCache w' = None.
Proof.
  exact (token_response_incomplete Runs.env_without_lifetime Sample.oauth
           Sample.initial_world Runs.response_without_lifetime
           {| access_token := Some "tok"; expires_in := None;
              token_type := Some "Bearer" |}
           eq_refl eq_refl eq_refl eq_refl
           (or_intror (or_intror (or_introl eq_refl)))).
Defined.

Lemma short_lifetime_token_is_never_valid_witness :
  exists w1 : World,
    getAccessToken Runs.env_short_lifetime Sample.oauth Sample.initial_world
    = (inr "t1", w1) /\
    fst (hasCachedToken Runs.env_short_lifetime Sample.oauth w1) = inr false /\
    fetched (snd (getAccessToken Runs.env_short_lifetime Sample.oauth w1))
    = fetched w1 ++ [token_request Sample.oauth].
Proof.
  destruct (short_lifetime_token_is_never_valid Runs.env_short_lifetime
              Sample.oauth Sample.initial_world
              (Sample.token_response "t1" 300)
              {| access_token := Some "t1"; expires_in := Some 300;
                 token_type := Some "Bearer" |}
              "t1" 300
              eq_refl eq_refl eq_refl eq_refl eq_refl ltac:(discriminate)
              eq_refl ltac:(lia) ltac:(lia))
    as (w1 & Hrun & Hlater).
  exists w1. split; [exact Hrun|].
  apply (Hlater w1 eq_refl).
  vm_compute in Hrun. injection Hrun as <-. vm_compute. discriminate.
Defined.

(** * Beyond the claims: the two protocol calls *)

(** [acknowledgePreview] and [submitPreviewCompletion] are the same code
    around different requests and messages: get a token, post the request
    built with it, throw if the response is not ok. *)
Definition api_post (env : Env) (oauth : CMPOAuthClient)
    (request_with : string -> Request) (failure_message : string) : M unit :=
  accessToken ← getAccessToken env oauth;
  response ← fetch env (request_with accessToken);
  if negb (Response.ok response) then
    errorText ← await (Response.text response);
    throw (CMPError failure_message
             (Some (Response.status response)) (Some errorText))
  else mret tt.

(** What a request is for, read off its body. *)
Inductive Kind : Type := TokenCall | AcknowledgeCall | CompleteCall.

Definition request_kind (r : Request) : Kind :=
  match body r with
  | UrlEncoded _ => TokenCall
  | JsonAcknowledge _ _ => AcknowledgeCall
  | JsonComplete _ => CompleteCall
  end.

(** The orders in which one run of [handleWebhook] can send its requests. *)
Definition protocol_traces : list (list Kind) :=
  [ [];
    [TokenCall];
    [AcknowledgeCall];
    [TokenCall; AcknowledgeCall];
    [AcknowledgeCall; TokenCall];
    [TokenCall; AcknowledgeCall; TokenCall];
    [AcknowledgeCall; CompleteCall];
    [TokenCall; AcknowledgeCall; CompleteCall];
    [AcknowledgeCall; TokenCall; CompleteCall];
    [TokenCall; AcknowledgeCall; TokenCall; CompleteCall] ].

Section ProtocolCalls.
Context (env : Env) (this : CMPClient).

Lemma acknowledgePreview_api_post
    (contentId versionId previewId acknowledgedBy contentHash : JSValue) :
  acknowledgePreview env this contentId versionId previewId acknowledgedBy
    contentHash
  = api_post env (oauthClient this)
      (acknowledge_request this contentId versionId previewId acknowledgedBy
         contentHash)
      "Failed to acknowledge preview".
Proof. reflexivity. Qed.

Lemma submitPreviewCompletion_api_post
    (contentId versionId previewId : JSValue) (keyedPreviews : KeyedPreviews) :
  submitPreviewCompletion env this contentId versionId previewId keyedPreviews
  = api_post env (oauthClient this)
      (completion_request this contentId versionId previewId keyedPreviews)
      "Failed to submit preview completion".
Proof. reflexivity. Qed.

Variables (request_with : string -> Request) (failure_message : string).

Lemma api_post_answered (w w1 : World) (token : string)
    (response : Response.t) :
  getAccessToken env (oauthClient this) w = (inr token, w1) ->
  network env (length (fetched w1)) (request_with token) = inr response ->
  api_post env (oauthClient this) request_with failure_message w
  = (if Response.ok response then inr tt
     else match Response.text response with
          | inr errorText =>
              inl (CMPError failure_message (Some (Response.status response))
                     (Some errorText))
          | inl e => inl e
          end,
     after_request (request_with token) w1).
Proof.
  intros Htoken Hnet. unfold api_post. run. rewrite Htoken, Hnet.
  destruct (Response.ok response); cbn; [reflexivity|].
  destruct (Response.text response); reflexivity.
Qed.


Lemma api_post_trace (w : World) :
  exists sent : list Request,
    fetched (snd (api_post env (oauthClient this) request_with
                    failure_message w))
    = fetched w ++ sent /\
    ((sent = [token_request (oauthClient this)] /\
      exists e, fst (api_post env (oauthClient this) request_with
                       failure_message w) = inl e)
     \/ (exists token, sent = [request_with token])
     \/ (exists token,
           sent = [token_request (oauthClient this); request_with token])).
Proof.
  unfold api_post. run.
  destruct (getAccessToken env (oauthClient this) w) as [[e|token] w1]
    eqn:Htoken.
  - exists [token_request (oauthClient this)]. cbn.
    split; [apply (getAccessToken_throws _ _ _ _ _ Htoken)|].
    left. eauto.
  - pose proof (getAccessToken_fetched env (oauthClient this) w) as Hlog.
    rewrite Htoken in Hlog. cbn in Hlog.
    assert (Hafter : forall r : Result unit * World,
              fetched (snd r) = fetched w1 ++ [request_with token] ->
              exists sent, fetched (snd r) = fetched w ++ sent /\
                ((sent = [token_request (oauthClient this)] /\
                  exists e, fst r = inl e)
                 \/ (exists token, sent = [request_with token])
                 \/ (exists token,
                       sent = [token_request (oauthClient this);
                               request_with token]))).
    { intros r Hr. destruct Hlog as [Hlog|Hlog]; rewrite Hlog in Hr.
      - exists [request_with token]. split; [exact Hr|]. right. left. eauto.
      - exists [token_request (oauthClient this); request_with token].
        rewrite <- app_assoc in Hr. split; [exact Hr|]. right. right. eauto. }
    apply Hafter.
    destruct (network env _ _) as [e|response]; [reflexivity|].
    destruct (Response.ok response); cbn; [reflexivity|].
    destruct (Response.text response); reflexivity.
Qed.

End ProtocolCalls.

(** * Beyond the claims: parsing the payload *)

(** A payload of the declared shape [CMPWebhookPayload]: a preview id and a
    list of structured contents. *)
Definition webhook_payload (preview_id : JSValue)
    (structured_contents : list JSValue) : JSValue :=
  JObj [("data",
          JObj [("preview_id", preview_id);
                ("assets",
                  JObj [("structured_contents", JArr structured_contents)])])].

(** A structured content of the declared shape [StructuredContent]. *)
Definition structured_content (id version_id updated_by content_hash : string)
    (fields : list (string * JSValue)) : JSValue :=
  JObj [("id", JStr id);
        ("version_id", JStr version_id);
        ("content_body",
          JObj [("updated_by", JStr updated_by);
                ("fields_version", JObj [("content_hash", JStr content_hash)]);
                ("fields", JObj fields)])].

Section Parsing.
Context (this : CMPWebhookHandler).

(** X8.  [parseWebhookPayload] returns a request exactly when the five
    values can be extracted and all of them are truthy, and the request
    then holds those five values unchanged. *)
Theorem parseWebhookPayload_succeeds_iff (payload : JSValue)
    (request : PreviewRequest) :
  parseWebhookPayload this payload = inr request
  <-> extract_fields payload
      = inr (contentId request, versionId request, previewId request,
             updatedBy request, contentHash request)
      /\ truthy (contentId request) = true
      /\ truthy (versionId request) = true
      /\ truthy (previewId request) = true
      /\ truthy (updatedBy request) = true
      /\ truthy (contentHash request) = true.
Proof.
  unfold parseWebhookPayload.
  destruct (extract_fields payload) as [e|[[[[c v] p] u] h]].
  { split; [discriminate|]. intros [H _]. discriminate. }
  unfold falsy.
  destruct (truthy c) eqn:Hc, (truthy v) eqn:Hv, (truthy p) eqn:Hp,
    (truthy u) eqn:Hu, (truthy h) eqn:Hh; cbn;
    try (split; [discriminate|];
         intros (H & Tc & Tv & Tp & Tu & Th);
         injection H as E1 E2 E3 E4 E5; congruence).
  split.
  - intros H. injection H as <-. cbn. auto 10.
  - intros (H & _). injection H as -> -> -> -> ->.
    destruct request; reflexivity.
Qed.

(** X9.  Of the structured contents only the first is looked at: two
    payloads of the declared shape with the same preview id and the same
    first structured content are parsed alike, and handled alike in every
    environment and from every state, whatever follows the first entry.
    With no structured content at all the payload is refused with status
    code 400, four of the five values being reported as [undefined] next
    to the preview id (a primitive that a template literal prints). *)
Theorem only_first_structured_content (preview_id first : JSValue)
    (rest other : list JSValue) :
  parseWebhookPayload this (webhook_payload preview_id (first :: rest))
  = parseWebhookPayload this (webhook_payload preview_id (first :: other))
  /\
  (forall (env : Env) (w : World),
     handleWebhook env this (webhook_payload preview_id (first :: rest)) w
     = handleWebhook env this (webhook_payload preview_id (first :: other)) w)
  /\
  (scalar preview_id = true ->
   parseWebhookPayload this (webhook_payload preview_id [])
   = inl (CMPError "Missing required fields in webhook payload"
            (Some 400)
            (Some ("contentId=undefined, versionId=undefined, previewId="
                   +:+ to_string preview_id
                   +:+ ", updatedBy=undefined, contentHash=undefined")))).
Proof.
  assert (Hparse :
    parseWebhookPayload this (webhook_payload preview_id (first :: rest))
    = parseWebhookPayload this (webhook_payload preview_id (first :: other)))
    by reflexivity.
  split; [exact Hparse|]. split.
  - intros env w. unfold handleWebhook, handleWebhook_try, process.
    cbn [typeof_string webhook_payload]. rewrite Hparse. reflexivity.
  - intros _. reflexivity.
Qed.

(** X10.  Round trip for payloads of the declared shape: from a payload
    built from five non-empty strings (with any fields, and any further
    structured contents behind the first) [parseWebhookPayload] gives back
    exactly those five strings. *)
Theorem parseWebhookPayload_round_trip
    (id version_id preview_id updated_by content_hash : string)
    (fields : list (string * JSValue)) (more : list JSValue) :
  id <> "" -> version_id <> "" -> preview_id <> "" ->
  updated_by <> "" -> content_hash <> "" ->
  parseWebhookPayload this
    (webhook_payload (JStr preview_id)
       (structured_content id version_id updated_by content_hash fields
          :: more))
  = inr {| contentId := JStr id;
           versionId := JStr version_id;
           previewId := JStr preview_id;
           updatedBy := JStr updated_by;
           contentHash := JStr content_hash |}.
Proof.
  intros H1 H2 H3 H4 H5.
  apply String.eqb_neq in H1, H2, H3, H4, H5.
  unfold parseWebhookPayload. cbn. unfold falsy. cbn.
  rewrite H1, H2, H3, H4, H5. reflexivity.
Qed.

End Parsing.

Lemma only_first_structured_content_witness :
  parseWebhookPayload Sample.handler
    (webhook_payload (JStr "p1")
       [structured_content "c1" "v1" "u1" "h1" [];
        structured_content "c2" "v2" "u2" "h2" []])
  = inr Sample.request
  /\
  parseWebhookPayload Sample.handler (webhook_payload (JStr "p1") [])
  = inl (CMPError "Missing required fields in webhook payload" (Some 400)
           (Some "contentId=undefined, versionId=undefined, previewId=p1, updatedBy=undefined, contentHash=undefined")).
Proof.
  destruct (only_first_structured_content Sample.handler (JStr "p1")
              (structured_content "c1" "v1" "u1" "h1" [])
              [structured_content "c2" "v2" "u2" "h2" []] [])
    as (Hsame & _ & Hempty).
  split.
  - rewrite Hsame. reflexivity.
  - exact (Hempty eq_refl).
Defined.

Lemma parseWebhookPayload_round_trip_witness :
  parseWebhookPayload Sample.handler
    (webhook_payload (JStr "p1")
       [structured_content "c1" "v1" "u1" "h1" [("title", JStr "Hello")]])
  = inr Sample.request.
Proof.
  exact (parseWebhookPayload_round_trip Sample.handler "c1" "v1" "p1" "u1"
           "h1" [("title", JStr "Hello")] []
           ltac:(discriminate) ltac:(discriminate) ltac:(discriminate)
           ltac:(discriminate) ltac:(discriminate)).
Defined.

(** * Beyond the claims: the workflow as a whole *)

Section Workflow.
Context (env : Env) (this : CMPWebhookHandler).



Lemma handleWebhook_decoded (payload parsed : JSValue) (w : World) :
  payload_decodes_to env payload parsed ->
  handleWebhook env this payload w
  = try_catch (process env this parsed) handleWebhook_catch w.
Proof.
  intros Hdecode. unfold handleWebhook, try_catch.
  rewrite (handleWebhook_try_decoded _ _ _ _ _ Hdecode). reflexivity.
Qed.

(** X11.  A payload that is not accepted costs nothing: unless the payload
    (decoded, if it is a text) passes [parseWebhookPayload], a run of
    [handleWebhook] sends no request, does not read the clock and leaves
    the token cache alone. *)
Theorem rejected_payload_changes_nothing (payload : JSValue) (w : World) :
  (exists (parsed : JSValue) (request : PreviewRequest),
     payload_decodes_to env payload parsed /\
     parseWebhookPayload this parsed = inr request)
  \/ (snd (handleWebhook env this payload w) = w /\
      exists (message : string) (code : Z),
        fst (handleWebhook env this payload w) = inr (failure message code)).
Proof.
  assert (Hparsed : forall parsed : JSValue,
            payload_decodes_to env payload parsed ->
            (exists request, parseWebhookPayload this parsed = inr request)
            \/ (snd (handleWebhook env this payload w) = w /\
                exists (message : string) (code : Z),
                  fst (handleWebhook env this payload w)
                  = inr (failure message code))).
  { intros parsed Hdecode.
    destruct (parseWebhookPayload this parsed) as [e|request] eqn:Hparse;
      [right|left; eauto].
    rewrite (handleWebhook_decoded _ _ _ Hdecode).
    unfold try_catch, process. run. rewrite Hparse.
    destruct (handleWebhook_catch_failure e w) as (m & code & ->). cbn. eauto. }
  destruct payload as [| | b | z | text | items | entries];
    try (destruct (Hparsed _ eq_refl) as [[request Hr]|Hsilent];
         [left; eexists _, request; split; [reflexivity|exact Hr]
         |right; exact Hsilent]).
  destruct (String.eqb_spec text "") as [->|Hne].
  { right. cbn. eauto. }
  destruct (JSON_parse env text) as [e|parsed] eqn:Hparse.
  - right. unfold handleWebhook, try_catch, handleWebhook_try. cbn.
    apply String.eqb_neq in Hne. rewrite Hne, Hparse. cbn. eauto.
  - destruct (Hparsed parsed (conj Hne Hparse)) as [[request Hr]|Hsilent];
      [left|right; exact Hsilent].
    exists parsed, request. split; [exact (conj Hne Hparse)|exact Hr].
Qed.

End Workflow.

Section Outcomes.
Context (env : Env) (this : CMPWebhookHandler).


(** X12.  The happy path: for an accepted payload with printable ids
    (strings, as declared, or other primitives), when a token is at hand
    for each of the two calls and both endpoints answer with success,
    [handleWebhook] returns the success record with status 200, the three
    ids of the request and the generated previews, and the completion
    request, carrying those same previews, is the last thing sent. *)
Theorem handleWebhook_happy_path (payload parsed : JSValue)
    (request : PreviewRequest) (w w1 w3 : World) (token token' : string)
    (response1 response2 : Response.t) :
  payload_decodes_to env payload parsed ->
  parseWebhookPayload this parsed = inr request ->
  printable_ids request = true ->
  getAccessToken env (oauthClient (client this)) w = (inr token, w1) ->
  let acknowledge :=
    acknowledge_request (client this) (contentId request)
      (versionId request) (previewId request) (updatedBy request)
      (contentHash request) token in
  network env (length (fetched w1)) acknowledge = inr response1 ->
  Response.ok response1 = true ->
  getAccessToken env (oauthClient (client this)) (after_request acknowledge w1) = (inr token', w3) ->
  let keyedPreviews :=
    generatePreviewUrls this (to_string (contentId request)) in
  let complete :=
    completion_request (client this) (contentId request)
      (versionId request) (previewId request) keyedPreviews token' in
  network env (length (fetched w3)) complete = inr response2 ->
  Response.ok response2 = true ->
  handleWebhook env this payload w
  = (inr {| success := true;
            data := Some {| Data.contentId := contentId request;
                            Data.versionId := versionId request;
                            Data.previewId := previewId request;
                            Data.keyedPreviews := keyedPreviews |};
            error := None;
            status := 200 |},
     after_request complete w3).
Proof.
  intros Hdecode Hparse _ Htoken acknowledge Hnet1 Hok1 Htoken'
    keyedPreviews complete Hnet2 Hok2.
  rewrite (handleWebhook_decoded _ _ _ _ _ Hdecode).
  unfold try_catch, process. run. rewrite Hparse.
  rewrite acknowledgePreview_api_post.
  rewrite (api_post_answered env (client this)
             (acknowledge_request (client this) (contentId request)
                (versionId request) (previewId request) (updatedBy request)
                (contentHash request))
             _ _ _ _ _ Htoken Hnet1), Hok1.
  rewrite submitPreviewCompletion_api_post.
  rewrite (api_post_answered env (client this)
             (completion_request (client this) (contentId request)
                (versionId request) (previewId request) keyedPreviews)
             _ _ _ _ _ Htoken' Hnet2), Hok2.
  reflexivity.
Qed.


Lemma try_catch_world (c : M WebhookHandlerResult) (w : World) :
  snd (try_catch c handleWebhook_catch w) = snd (c w).
Proof.
  unfold try_catch. destruct (c w) as [[e|r] w1]; [|reflexivity].
  destruct (handleWebhook_catch_failure e w1) as (m & code & ->). reflexivity.
Qed.

Ltac in_traces :=
  unfold protocol_traces;
  repeat first [apply list_elem_of_here | apply list_elem_of_further].

Lemma process_trace (parsed : JSValue) (w : World) :
  exists sent : list Request,
    fetched (snd (process env this parsed w)) = fetched w ++ sent /\
    request_kind <$> sent ∈ protocol_traces.
Proof.
  unfold process. run.
  destruct (parseWebhookPayload this parsed) as [e|request].
  { exists []. cbn. rewrite app_nil_r. split; [reflexivity|in_traces]. }
  rewrite acknowledgePreview_api_post.
  destruct (api_post_trace env (client this)
              (acknowledge_request (client this) (contentId request)
                 (versionId request) (previewId request) (updatedBy request)
                 (contentHash request))
              "Failed to acknowledge preview" w)
    as (sent1 & Hlog1 & Hsent1).
  destruct (api_post env _ _ _ w) as [[e|[]] w1]; cbn in Hlog1, Hsent1.
  { exists sent1. split; [exact Hlog1|].
    destruct Hsent1 as [[-> _]|[[tok ->]|[tok ->]]]; cbn; in_traces. }
  rewrite submitPreviewCompletion_api_post.
  destruct (api_post_trace env (client this)
              (completion_request (client this) (contentId request)
                 (versionId request) (previewId request)
                 (generatePreviewUrls this (to_string (contentId request))))
              "Failed to submit preview completion" w1)
    as (sent2 & Hlog2 & Hsent2).
  exists (sent1 ++ sent2). split.
  - rewrite app_assoc, <- Hlog1, <- Hlog2.
    destruct (api_post env _ _ _ w1) as [[e|[]] w2]; reflexivity.
  - destruct Hsent1 as [[_ [e He]]|[[tok ->]|[tok ->]]]; [discriminate| |];
      destruct Hsent2 as [[-> _]|[[tok' ->]|[tok' ->]]]; cbn; in_traces.
Qed.

(** X14.  The order of the protocol: the requests one run of
    [handleWebhook] sends are, in this order, at most one token request, the
    acknowledge request, at most one further token request and the
    completion request, cut off where the run fails.  So there are never
    more than four, and a completion request is never sent without an
    acknowledge request before it. *)
Theorem handleWebhook_request_order (payload : JSValue) (w : World) :
  exists sent : list Request,
    fetched (snd (handleWebhook env this payload w)) = fetched w ++ sent /\
    request_kind <$> sent ∈ protocol_traces.
Proof.
  unfold handleWebhook. rewrite try_catch_world. unfold handleWebhook_try.
  assert (Hnone : exists sent : list Request,
            fetched w = fetched w ++ sent /\
            request_kind <$> sent ∈ protocol_traces).
  { exists []. rewrite app_nil_r. split; [reflexivity|in_traces]. }
  destruct (typeof_string payload) as [text|]; [|apply process_trace].
  destruct (String.eqb text ""); [exact Hnone|].
  destruct (JSON_parse env text) as [e|parsed];
    [exact Hnone|apply process_trace].
Qed.


(** X16.  A refusal by the token endpoint stops the workflow before the
    platform is called: for an accepted payload with printable ids
    (strings, as declared, or other primitives), when a token has to be
    fetched and the token endpoint answers with a non-success status,
    [handleWebhook] returns the failure [Failed to obtain access token]
    with that status, and the token request is all that was sent. *)
Theorem token_rejection_reported_with_upstream_status
    (payload parsed : JSValue) (request : PreviewRequest) (w : World)
    (response : Response.t) (errorText : string) :
  payload_decodes_to env payload parsed ->
  parseWebhookPayload this parsed = inr request ->
  printable_ids request = true ->
  cached_token_valid env w = false ->
  network env (length (fetched w)) (token_request (oauthClient (client this)))
  = inr response ->
  Response.ok response = false ->
  Response.status response <> 0 ->
  Response.text response = inr errorText ->
  handleWebhook env this payload w
  = (inr {| success := false; data := None;
            error := Some "Failed to obtain access token";
            status := Response.status response |},
     after_request (token_request (oauthClient (client this)))
       (after_cache_check w)).
Proof.
  intros Hdecode Hparse _ Hmiss Hnet Hok Hstatus Htext.
  rewrite (handleWebhook_decoded _ _ _ _ _ Hdecode).
  unfold try_catch, process, acknowledgePreview. run. rewrite Hparse.
  rewrite (getAccessToken_no_valid_cache _ _ _ Hmiss).
  rewrite <- (after_cache_check_fetched w) in Hnet.
  rewrite (fetch_new_token_rejected _ _ _ _ _ Hnet Hok Htext). cbn.
  unfold failure, statusCode_or_500.
  apply Z.eqb_neq in Hstatus. rewrite Hstatus. reflexivity.
Qed.

(** X17.  An error without a status code is reported as 500: for an
    accepted payload with printable ids (strings, as declared, or other
    primitives), when the token endpoint answers with success but its
    body lacks the token or the lifetime, [handleWebhook] returns the
    failure [Invalid token response: missing access_token or expires_in]
    with status 500, and nothing but the token request was sent. *)
Theorem incomplete_token_response_reported_as_500
    (payload parsed : JSValue) (request : PreviewRequest) (w : World)
    (response : Response.t) (data : TokenResponse) :
  payload_decodes_to env payload parsed ->
  parseWebhookPayload this parsed = inr request ->
  printable_ids request = true ->
  cached_token_valid env w = false ->
  network env (length (fetched w)) (token_request (oauthClient (client this)))
  = inr response ->
  Response.ok response = true ->
  Response.json response = inr data ->
  access_token data = None \/ access_token data = Some ""
    \/ expires_in data = None \/ expires_in data = Some 0 ->
  handleWebhook env this payload w
  = (inr {| success := false; data := None;
            error := Some
              "Invalid token response: missing access_token or expires_in";
            status := 500 |},
     after_request (token_request (oauthClient (client this)))
       (after_cache_check w)).
Proof.
  intros Hdecode Hparse _ Hmiss Hnet Hok Hjson Hfields.
  rewrite (handleWebhook_decoded _ _ _ _ _ Hdecode).
  unfold try_catch, process, acknowledgePreview. run. rewrite Hparse.
  rewrite (getAccessToken_no_valid_cache _ _ _ Hmiss).
  rewrite <- (after_cache_check_fetched w) in Hnet.
  rewrite (fetch_new_token_incomplete _ _ _ _ _ Hnet Hok Hjson Hfields).
  reflexivity.
Qed.

End Outcomes.

Lemma handleWebhook_happy_path_witness :
  exists w' : World,
    handleWebhook Sample.env_ok Sample.handler Sample.payload
      Sample.initial_world
    = (inr Runs.success_result, w').
Proof.
  eexists.
  exact (handleWebhook_happy_path Sample.env_ok Sample.handler
           Sample.payload Sample.payload Sample.request
           Sample.initial_world
           (snd (getAccessToken Sample.env_ok Sample.oauth
                   Sample.initial_world))
           (snd (getAccessToken Sample.env_ok Sample.oauth
                   (after_request
                      (acknowledge_request Sample.api_client (JStr "c1")
                         (JStr "v1") (JStr "p1") (JStr "u1") (JStr "h1") "tok")
                      (snd (getAccessToken Sample.env_ok Sample.oauth
                              Sample.initial_world)))))
           "tok" "tok"
           (Sample.api_response 200 "") (Sample.api_response 204 "")
           eq_refl eq_refl eq_refl eq_refl eq_refl eq_refl eq_refl eq_refl
           eq_refl).
Defined.



Lemma token_rejection_reported_with_upstream_status_witness :
  handleWebhook Runs.env_unauthorized Sample.handler Sample.payload
    Sample.initial_world
  = (inr {| success := false; data := None;
            error := Some "Failed to obtain access token"; status := 401 |},
     after_request (token_request Sample.oauth) Sample.initial_world).
Proof.
  exact (token_rejection_reported_with_upstream_status Runs.env_unauthorized
           Sample.handler Sample.payload Sample.payload Sample.request
           Sample.initial_world (Sample.api_response 401 "bad credentials")
           "bad credentials"
           eq_refl eq_refl eq_refl eq_refl eq_refl eq_refl
           ltac:(discriminate) eq_refl).
Defined.

Lemma incomplete_token_response_reported_as_500_witness :
  handleWebhook Runs.env_without_lifetime Sample.handler Sample.payload
    Sample.initial_world
  = (inr {| success := false; data := None;
            error := Some
              "Invalid token response: missing access_token or expires_in";
            status := 500 |},
     after_request (token_request Sample.oauth) Sample.initial_world).
Proof.
  exact (incomplete_token_response_reported_as_500 Runs.env_without_lifetime
           Sample.handler Sample.payload Sample.payload Sample.request
           Sample.initial_world Runs.response_without_lifetime
           {| access_token := Some "tok"; expires_in := None;
              token_type := Some "Bearer" |}
           eq_refl eq_refl eq_refl eq_refl eq_refl eq_refl eq_refl
           (or_intror (or_intror (or_introl eq_refl)))).
Defined.

(** * Beyond the claims: the preview mapping *)

Lemma list_ascii_of_string_append (a b : string) :
  list_ascii_of_string (a +:+ b)
  = list_ascii_of_string a ++ list_ascii_of_string b.
Proof.
  induction a as [|c a IH]; [reflexivity|].
  change (String c a +:+ b) with (String c (a +:+ b)). cbn. rewrite IH.
  reflexivity.
Qed.

Lemma append_cancel_r (a b s : string) : a +:+ s = b +:+ s -> a = b.
Proof.
  intros H. apply (f_equal list_ascii_of_string) in H.
  rewrite !list_ascii_of_string_append in H. apply app_inv_tail in H.
  apply (f_equal string_of_list_ascii) in H.
  rewrite !string_of_list_ascii_of_string in H. exact H.
Qed.

Lemma size_list_to_set_le (l : list string) :
  (size (list_to_set l : gset string) <= length l)%nat.
Proof.
  induction l as [|x l IH]; cbn.
  - rewrite size_empty. lia.
  - rewrite size_union_alt, size_singleton.
    assert ((size (list_to_set l ∖ {[x]} : gset string)
             <= size (list_to_set l : gset string))%nat)
      by (apply subseteq_size; intros y Hy;
          apply elem_of_difference in Hy; tauto).
    lia.
Qed.

Section PreviewMapping.
Context (this : CMPWebhookHandler).

(** X18.  Only the set of configured types matters: two handlers with the
    same preview base URL whose type lists have the same members, in
    whatever order and however often repeated, generate the same mapping
    for every content id. *)
Theorem generatePreviewUrls_depends_on_type_set (other : CMPWebhookHandler)
    (contentId : string) :
  previewUrl (config other) = previewUrl (config this) ->
  (forall type : string,
     type ∈ this_previewTypes other <-> type ∈ this_previewTypes this) ->
  generatePreviewUrls other contentId = generatePreviewUrls this contentId.
Proof.
  intros Hurl Hsame. apply map_eq. intros type.
  rewrite !generatePreviewUrls_lookup. unfold preview_url. rewrite Hurl.
  destruct (decide (type ∈ this_previewTypes other)) as [Hin|Hnotin].
  - rewrite (decide_True (P := type ∈ this_previewTypes this))
      by (apply Hsame; exact Hin).
    reflexivity.
  - rewrite (decide_False (P := type ∈ this_previewTypes this));
      [reflexivity|].
    intros Hin. apply Hnotin, Hsame, Hin.
Qed.

(** X19.  The mapping never has more entries than there are configured
    types; it has exactly as many when no type is configured twice and
    none is [__proto__], and strictly fewer when [__proto__] is among
    them. *)
Theorem generatePreviewUrls_size (contentId : string) :
  (size (generatePreviewUrls this contentId)
   <= length (this_previewTypes this))%nat
  /\ (NoDup (this_previewTypes this) ->
      "__proto__" ∉ this_previewTypes this ->
      size (generatePreviewUrls this contentId)
      = length (this_previewTypes this))
  /\ ("__proto__" ∈ this_previewTypes this ->
      (size (generatePreviewUrls this contentId)
       < length (this_previewTypes this))%nat).
Proof.
  rewrite <- size_dom. split; [|split].
  - etransitivity; [|apply size_list_to_set_le].
    apply subseteq_size, generatePreviewUrls_dom_subseteq.
  - intros Hnodup Hplain. rewrite (generatePreviewUrls_dom _ _ Hplain).
    apply size_list_to_set, Hnodup.
  - intros Hin.
    apply Nat.lt_le_trans
      with (size (list_to_set (this_previewTypes this) : gset string));
      [|apply size_list_to_set_le].
    apply subset_size. split; [apply generatePreviewUrls_dom_subseteq|].
    intros Hsub.
    assert (Hdom : "__proto__" ∈ dom (generatePreviewUrls this contentId))
      by (apply Hsub, elem_of_list_to_set, Hin).
    apply elem_of_dom in Hdom as [url Hurl].
    rewrite generatePreviewUrls_lookup in Hurl.
    rewrite decide_True in Hurl by exact Hin.
    rewrite decide_True in Hurl by reflexivity. discriminate.
Qed.

(** X20.  Distinct preview types get distinct URLs for one content id,
    and distinct content ids get distinct URLs under one type. *)
Theorem preview_urls_are_distinct (type1 type2 contentId1 contentId2 : string) :
  (type1 <> type2 ->
   preview_url this type1 contentId1 <> preview_url this type2 contentId1)
  /\ (contentId1 <> contentId2 ->
      preview_url this type1 contentId1 <> preview_url this type1 contentId2).
Proof.
  unfold preview_url. split; intros Hne H; apply Hne;
    apply String.app_inj in H; apply String.app_inj in H.
  - exact (append_cancel_r _ _ _ H).
  - apply String.app_inj in H. apply String.app_inj in H. exact H.
Qed.

End PreviewMapping.

Lemma generatePreviewUrls_depends_on_type_set_witness :
  generatePreviewUrls
    (Sample.handler_with (Some ["mobile"; "default"; "mobile"])) "abc123"
  = generatePreviewUrls
      (Sample.handler_with (Some ["default"; "mobile"])) "abc123".
Proof.
  apply (generatePreviewUrls_depends_on_type_set
           (Sample.handler_with (Some ["default"; "mobile"]))
           (Sample.handler_with (Some ["mobile"; "default"; "mobile"]))
           "abc123" eq_refl).
  intros type. cbn. rewrite !elem_of_cons, !elem_of_nil. tauto.
Defined.

Lemma generatePreviewUrls_size_witness :
  size (generatePreviewUrls Sample.handler "abc123") = 5%nat
  /\ (size (generatePreviewUrls
              (Sample.handler_with (Some ["mobile"; "__proto__"])) "abc123")
      < 2)%nat.
Proof.
  split.
  - apply (proj1 (proj2 (generatePreviewUrls_size Sample.handler "abc123"))).
    + cbn. unfold default_previewTypes.
      repeat (apply NoDup_cons; split; [compute_done|]). apply NoDup_nil_2.
    + compute_done.
  - apply (proj2 (proj2 (generatePreviewUrls_size
                           (Sample.handler_with
                              (Some ["mobile"; "__proto__"])) "abc123"))).
    compute_done.
Defined.

Lemma preview_urls_are_distinct_witness :
  String.eqb (preview_url Sample.handler "mobile" "abc123")
    (preview_url Sample.handler "desktop" "abc123") = false.
Proof.
  apply String.eqb_neq.
  apply (proj1 (preview_urls_are_distinct Sample.handler "mobile" "desktop"
                  "abc123" "abc123")).
  discriminate.
Defined.

(** * Beyond the claims: the image lookup (src/client/CMPClient.ts,
    [getImage]) *)

(** The lookup is a [GET] without a body; its response body is handed to
    the caller as it is parsed ([as CMPImage] checks nothing), so it is a
    [JSValue] here. *)
Record ImageRequest : Type := {
  image_url : string;
  image_method : string;
  image_headers : list (string * string)
}.

Module ImageResponse.
Record t : Type := {
  ok : bool;
  status : Z;
  text : Result string;
  json : Result JSValue
}.
End ImageResponse.

(** The environment with the image endpoint: what the [n]-th lookup is
    answered with.  Every call still has an answer of its own. *)
Record ImageEnv : Type := {
  api_env : Env;
  image_network : nat -> ImageRequest -> Result ImageResponse.t
}.

(** The world with the lookups sent so far, oldest first. *)
Record ImageWorld : Type := {
  api_world : World;
  image_requests : list ImageRequest
}.

Definition image_request (this : CMPClient) (id accessToken : string)
    : ImageRequest :=
  {| image_url := apiBaseUrl (client_config this) +:+ "/images/" +:+ id;
     image_method := "GET";
     image_headers := [("Authorization", "Bearer " +:+ accessToken);
                       ("Accept", "application/json")] |}.

Definition getImage (env : ImageEnv) (this : CMPClient) (id : string)
    (w : ImageWorld) : Result JSValue * ImageWorld :=
  match getAccessToken (api_env env) (oauthClient this) (api_world w) with
  | (inl e, w1) =>
      (inl e, {| api_world := w1; image_requests := image_requests w |})
  | (inr accessToken, w1) =>
      let request := image_request this id accessToken in
      let w2 := {| api_world := w1;
                   image_requests := image_requests w ++ [request] |} in
      match image_network env (length (image_requests w)) request with
      | inl e => (inl e, w2)
      | inr response =>
          if negb (ImageResponse.ok response) then
            match ImageResponse.text response with
            | inl e => (inl e, w2)
            | inr errorText =>
                (inl (CMPError ("Failed to get image with ID: " +:+ id)
                        (Some (ImageResponse.status response))
                        (Some errorText)), w2)
            end
          else (ImageResponse.json response, w2)
      end
  end.

Section ImageLookup.
Context (env : ImageEnv) (this : CMPClient).

(** X21.  [getImage] hands out a body only when the image endpoint has
    accepted the lookup: if it returns a value, a token was obtained, the
    one lookup sent went to [{apiBaseUrl}/images/{id}] with that token as
    bearer, the endpoint answered with success, and the value is what the
    body of that answer parses to.  When the endpoint answers with a
    non-success status instead, [getImage] throws a [CMPError] whose
    message names the image id and which carries the status and the text of
    the response. *)
Theorem getImage_outcomes (id : string) (w : ImageWorld) :
  (forall (image : JSValue) (w' : ImageWorld),
     getImage env this id w = (inr image, w') ->
     exists (token : string) (w1 : World) (response : ImageResponse.t),
       getAccessToken (api_env env) (oauthClient this) (api_world w)
         = (inr token, w1) /\
       image_network env (length (image_requests w))
         (image_request this id token) = inr response /\
       ImageResponse.ok response = true /\
       ImageResponse.json response = inr image /\
       w' = {| api_world := w1;
               image_requests :=
                 image_requests w ++ [image_request this id token] |})
  /\
  (forall (token : string) (w1 : World) (response : ImageResponse.t)
          (errorText : string),
     getAccessToken (api_env env) (oauthClient this) (api_world w)
       = (inr token, w1) ->
     image_network env (length (image_requests w))
       (image_request this id token) = inr response ->
     ImageResponse.ok response = false ->
     ImageResponse.text response = inr errorText ->
     getImage env this id w
     = (inl (CMPError ("Failed to get image with ID: " +:+ id)
               (Some (ImageResponse.status response)) (Some errorText)),
        {| api_world := w1;
           image_requests :=
             image_requests w ++ [image_request this id token] |})).
Proof.
  split.
  - intros image w'. unfold getImage.
    destruct (getAccessToken (api_env env) (oauthClient this) (api_world w))
      as [[e|token] w1]; [discriminate|].
    cbn zeta.
    destruct (image_network env _ _) as [e|response] eqn:Hnet;
      [discriminate|].
    destruct (ImageResponse.ok response) eqn:Hok; cbn.
    + intros H. injection H as Hjson <-. eauto 10.
    + destruct (ImageResponse.text response); discriminate.
  - intros token w1 response errorText Htoken Hnet Hok Htext.
    unfold getImage. rewrite Htoken. cbn zeta.
    rewrite Hnet, Hok. cbn. rewrite Htext. reflexivity.
Qed.

(** X22.  The image lookup shares the token cache of the preview calls:
    while the cached token is unexpired, [getImage] sends no token request
    and authorises the lookup with the cached token; and when no token can
    be had, no lookup is sent at all. *)
Theorem getImage_uses_token_cache (id : string) (w : ImageWorld) :
  (forall c : TokenCache,
     tokenCache (api_world w) = Some c ->
     clock (api_env env) (ticks (api_world w)) < expiresAt c ->
     fetched (api_world (snd (getImage env this id w)))
       = fetched (api_world w) /\
     image_requests (snd (getImage env this id w))
       = image_requests w ++ [image_request this id (accessToken c)])
  /\
  (forall (e : Exn) (w1 : World),
     getAccessToken (api_env env) (oauthClient this) (api_world w)
       = (inl e, w1) ->
     getImage env this id w
     = (inl e, {| api_world := w1; image_requests := image_requests w |})).
Proof.
  split.
  - intros c Hc Hlt. unfold getImage.
    rewrite (getAccessToken_hit _ _ _ _ Hc Hlt). cbn zeta.
    destruct (image_network env _ _) as [e|response]; [auto|].
    destruct (ImageResponse.ok response); cbn; [auto|].
    destruct (ImageResponse.text response); auto.
  - intros e w1 Htoken. unfold getImage. rewrite Htoken. reflexivity.
Qed.

End ImageLookup.

Module ImageRuns.

Definition image_body : JSValue :=
  JObj [("id", JStr "img-1"); ("title", JStr "Logo");
        ("url", JStr "https://cdn.example.com/img-1.png")].

(** The image endpoint answers the first lookup with the image and the
    second with 404. *)
Definition env : ImageEnv :=
  {| api_env := Sample.env_ok;
     image_network := fun n _ =>
       match n with
       | O => inr {| ImageResponse.ok := true;
                     ImageResponse.status := 200;
                     ImageResponse.text := inr "";
                     ImageResponse.json := inr image_body |}
       | _ => inr {| ImageResponse.ok := false;
                     ImageResponse.status := 404;
                     ImageResponse.text := inr "not found";
                     ImageResponse.json :=
                       inl (JSError "SyntaxError" "Unexpected token in JSON") |}
       end |}.

Definition initial_world : ImageWorld :=
  {| api_world := Sample.initial_world; image_requests := [] |}.

Definition world_after_first : ImageWorld :=
  snd (getImage env Sample.api_client "img-1" initial_world).

End ImageRuns.

Lemma getImage_outcomes_witness :
  (exists (token : string) (response : ImageResponse.t),
     image_network ImageRuns.env 0
       (image_request Sample.api_client "img-1" token) = inr response /\
     ImageResponse.json response = inr ImageRuns.image_body)
  /\
  fst (getImage ImageRuns.env Sample.api_client "img-2"
         ImageRuns.world_after_first)
  = inl (CMPError "Failed to get image with ID: img-2" (Some 404)
           (Some "not found")).
Proof.
  split.
  - destruct (proj1 (getImage_outcomes ImageRuns.env Sample.api_client
                       "img-1" ImageRuns.initial_world)
                ImageRuns.image_body ImageRuns.world_after_first eq_refl)
      as (token & w1 & response & _ & Hnet & _ & Hjson & _).
    exists token, response. split; [exact Hnet|exact Hjson].
  - exact (f_equal fst
             (proj2 (getImage_outcomes ImageRuns.env Sample.api_client
                       "img-2" ImageRuns.world_after_first)
                "tok"
                (snd (getAccessToken Sample.env_ok Sample.oauth
                        (api_world ImageRuns.world_after_first)))
                {| ImageResponse.ok := false;
                   ImageResponse.status := 404;
                   ImageResponse.text := inr "not found";
                   ImageResponse.json :=
                     inl (JSError "SyntaxError"
                            "Unexpected token in JSON") |}
                "not found" eq_refl eq_refl eq_refl eq_refl)).
Defined.

Lemma getImage_uses_token_cache_witness :
  fetched (api_world (snd (getImage ImageRuns.env Sample.api_client "img-2"
                             ImageRuns.world_after_first)))
  = [token_request Sample.oauth]
  /\
  image_requests (snd (getImage ImageRuns.env Sample.api_client "img-2"
                         ImageRuns.world_after_first))
  = [image_request Sample.api_client "img-1" "tok";
     image_request Sample.api_client "img-2" "tok"].
Proof.
  exact (proj1 (getImage_uses_token_cache ImageRuns.env Sample.api_client
                  "img-2" ImageRuns.world_after_first)
           {| accessToken := "tok"; expiresAt := 3301000 |}
           eq_refl eq_refl).
Defined.

